(** * hlmon: the validator heartbeat monitor of [main.go]

    A shallow embedding of the monitor's decoder ([ValidatorData.UnmarshalJSON]),
    alert evaluator ([processLogEntry]), poll cycle (the body of [main]'s loop) and
    latest-file locator ([findLatestDir], [findLatestFile]), with the properties
    the design document states about them.

    Go's [float64] is the kernel's binary64 [float]; a Go [map[string]T] is a
    [gmap string T]; a Go string is a [string] of bytes. *)

From Stdlib Require Import ZArith NArith String Ascii List Bool Lia.
From Stdlib Require Import Floats.PrimFloat Strings.HexString Sorting.Sorted.
From stdpp Require Import gmap strings list sorting.

Local Open Scope string_scope.
Set Warnings "-register-all,-inexact-float".

(** ** JSON values *)

Module Json.

(** What [encoding/json] hands to the program when it decodes into
    [interface{}]: [nil], [bool], [float64], [string], [[]interface{}] and
    [map[string]interface{}].  An object is kept as its member sequence, in the
    order the members are written in the text that is being decoded.  A number
    is the [float64] it decodes to: a number text outside the range of
    [float64], on which [json.Unmarshal] returns an error, has no value in this
    type. *)
Inductive json : Type :=
| JNull
| JBool (b : bool)
| JNumber (f : float)
| JString (s : string)
| JArray (elems : list json)
| JObject (members : list (string * json)).

(** [objInsert k v m]: the store [m[k] = v] on a map that [json.Marshal] will
    write with its keys in increasing byte order; a later store to a key
    replaces the earlier one. *)
Fixpoint objInsert (k : string) (v : json) (m : list (string * json)) : list (string * json) :=
  match m with
  | [] => [(k, v)]
  | (k', v') :: rest =>
      match String.compare k k' with
      | Lt => (k, v) :: (k', v') :: rest
      | Eq => (k, v) :: rest
      | Gt => (k', v') :: objInsert k v rest
      end
  end.

(** [toInterface j]: [json.Unmarshal] of the text [j] into an [interface{}],
    followed by [json.Marshal] of that value.  Arrays keep their order; an object
    goes through a Go map, so of two members with one key the later one stays,
    and the members come out sorted by key. *)
Fixpoint toInterface (j : json) : json :=
  match j with
  | JArray elems => JArray (List.map toInterface elems)
  | JObject members =>
      JObject (fold_left (fun m kv => objInsert (fst kv) (toInterface (snd kv)) m) members [])
  | _ => j
  end.

(** The members of [toInterface (JObject members)]: what [json.Marshal] writes
    for the Go map the object was decoded into. *)
Definition marshaledMembers (members : list (string * json)) : list (string * json) :=
  fold_left (fun m kv => objInsert (fst kv) (toInterface (snd kv)) m) members [].

(** One store of that map. *)
Definition insertMember (m : list (string * json)) (kv : string * json)
  : list (string * json) :=
  objInsert (fst kv) (toInterface (snd kv)) m.

(** The value a key is looked up to in a member list. *)
Definition memberOf (k : string) (m : list (string * json)) : option json :=
  match List.find (fun kv => String.eqb (fst kv) k) m with
  | Some kv => Some (snd kv)
  | None => None
  end.

(** Keys in strictly increasing byte order. *)
Definition keyBefore (a b : string * json) : Prop := String.ltb (fst a) (fst b) = true.

(** The number of values in a text, itself included. *)
Fixpoint jsize (j : json) : nat :=
  match j with
  | JArray elems => S (list_sum (List.map jsize elems))
  | JObject members => S (list_sum (List.map (fun kv => jsize (snd kv)) members))
  | _ => 1
  end.

End Json.
Export Json.

(** ** Matching an object key to a struct field *)

Module Fold.

Definition byteIs (c : ascii) (n : N) : bool := N.eqb (N_of_ascii c) n.

(** ['a'..'z'] to ['A'..'Z'], every other byte unchanged. *)
Definition upperByte (c : ascii) : ascii :=
  let n := N_of_ascii c in
  if N.leb 97 n && N.leb n 122 then ascii_of_N (n - 32) else c.

(** [foldName] of [encoding/json]: two names match when their folds are equal.
    ASCII letters fold to upper case; of the runes outside ASCII only U+017F (the
    long s, bytes C5 BF) and U+212A (the Kelvin sign, bytes E2 84 AA) fold to an
    ASCII letter, [S] and [K].  Other multi-byte runes are left as their bytes:
    their fold is never ASCII, and every field name of this program is ASCII. *)
Fixpoint foldName (s : string) : string :=
  match s with
  | EmptyString => EmptyString
  | String c1 rest1 =>
      match rest1 with
      | EmptyString => String (upperByte c1) EmptyString
      | String c2 rest2 =>
          if byteIs c1 197 && byteIs c2 191 then String "S" (foldName rest2)
          else
            match rest2 with
            | EmptyString => String (upperByte c1) (foldName rest1)
            | String c3 rest3 =>
                if byteIs c1 226 && byteIs c2 132 && byteIs c3 170
                then String "K" (foldName rest3)
                else String (upperByte c1) (foldName rest1)
            end
      end
  end.

(** The field a key is stored to: the field with exactly that name, and failing
    that the first field whose name has the same fold. *)
Definition lookupField {F : Type} (fields : list (string * F)) (key : string) : option F :=
  match List.find (fun nf => String.eqb (fst nf) key) fields with
  | Some nf => Some (snd nf)
  | None =>
      match List.find (fun nf => String.eqb (foldName (fst nf)) (foldName key)) fields with
      | Some nf => Some (snd nf)
      | None => None
      end
  end.

End Fold.
Export Fold.

(** ** The decoder: [HeartbeatStatus], [ValidatorData] and [UnmarshalJSON] *)

Module Unmarshal.

(** [LastAckDuration] is a [*float64]: [None] is the nil pointer, [Some d] a
    pointer to [d]. *)
Record HeartbeatStatus : Type := {
  SinceLastSuccess : float;
  LastAckDuration : option float
}.

Record ValidatorData : Type := {
  HomeValidator : string;
  ValidatorsMissingHeartbeat : list string;
  HeartbeatStatuses : gmap string HeartbeatStatus
}.

Record LogArrayEntry : Type := {
  Timestamp : string;
  Validator : ValidatorData
}.

(** The zero values [var heartbeatStatus HeartbeatStatus] and
    [var validatorData ValidatorData] start from. *)
Definition zeroHeartbeatStatus : HeartbeatStatus :=
  {| SinceLastSuccess := 0%float; LastAckDuration := None |}.

Definition zeroValidatorData : ValidatorData :=
  {| HomeValidator := ""; ValidatorsMissingHeartbeat := []; HeartbeatStatuses := ∅ |}.

Inductive hsField : Type := FSinceLastSuccess | FLastAckDuration.

(** The [json:"..."] tags of [HeartbeatStatus]. *)
Definition hsFields : list (string * hsField) :=
  [("since_last_success", FSinceLastSuccess); ("last_ack_duration", FLastAckDuration)].

(** One member of a status object stored into the struct.  The second component
    is the decoder's saved error: a value of the wrong type is recorded and
    decoding goes on.  [null] leaves a [float64] as it is and sets a pointer to
    nil.  What a failed store leaves in the struct is not tracked: the struct is
    dropped when an error was saved. *)
Definition storeStatusMember (acc : HeartbeatStatus * bool) (kv : string * json)
  : HeartbeatStatus * bool :=
  let '(hs, failed) := acc in
  match lookupField hsFields (fst kv) with
  | None => acc
  | Some FSinceLastSuccess =>
      match snd kv with
      | JNumber f => ({| SinceLastSuccess := f; LastAckDuration := LastAckDuration hs |}, failed)
      | JNull => acc
      | _ => (hs, true)
      end
  | Some FLastAckDuration =>
      match snd kv with
      | JNumber f => ({| SinceLastSuccess := SinceLastSuccess hs; LastAckDuration := Some f |}, failed)
      | JNull => ({| SinceLastSuccess := SinceLastSuccess hs; LastAckDuration := None |}, failed)
      | _ => (hs, true)
      end
  end.

(** The members the decoder stores to [last_ack_duration]. *)
Definition storesLastAck (kv : string * json) : Prop :=
  lookupField hsFields (fst kv) = Some FLastAckDuration.

(** [json.Unmarshal(valueBytes, &heartbeatStatus)] on a zero [heartbeatStatus]:
    an object is stored member by member, [null] stores nothing and is no error,
    any other value is an error.  [None] is the returned error. *)
Definition unmarshalHeartbeatStatus (value : json) : option HeartbeatStatus :=
  match value with
  | JObject members =>
      let '(hs, failed) := fold_left storeStatusMember members (zeroHeartbeatStatus, false) in
      if failed then None else Some hs
  | JNull => Some zeroHeartbeatStatus
  | _ => None
  end.

(** The auxiliary struct of [UnmarshalJSON]: its own [HeartbeatStatuses], which
    hides the field of the same tag in the embedded [*Alias], and [Alias], which
    points at the receiver. *)
Record Aux : Type := {
  aux_HeartbeatStatuses : list (list json);
  aux_Alias : ValidatorData
}.

Inductive auxField : Type := FHeartbeatStatuses | FHomeValidator | FValidatorsMissingHeartbeat.

Definition auxFields : list (string * auxField) :=
  [("heartbeat_statuses", FHeartbeatStatuses); ("home_validator", FHomeValidator);
   ("validators_missing_heartbeat", FValidatorsMissingHeartbeat)].

(** An element of [heartbeat_statuses] decoded into a [[]interface{}]: an array
    gives its elements, [null] the nil slice, anything else is an error. *)
Definition unmarshalPair (j : json) : option (list json) :=
  match j with
  | JArray elems => Some (List.map toInterface elems)
  | JNull => Some []
  | _ => None
  end.

(** An element of [validators_missing_heartbeat] decoded into a [string]. *)
Definition unmarshalString (j : json) : option string :=
  match j with
  | JString s => Some s
  | JNull => Some ""
  | _ => None
  end.

(** A slice decoded element by element; the elements that fail are recorded in
    the flag and decoding goes on. *)
Fixpoint unmarshalSlice {A : Type} (elem : json -> option A) (zero : A) (js : list json)
  : list A * bool :=
  match js with
  | [] => ([], false)
  | j :: rest =>
      let '(xs, failed) := unmarshalSlice elem zero rest in
      match elem j with
      | Some x => (x :: xs, failed)
      | None => (zero :: xs, true)
      end
  end.

(** One member of the validator object stored into [aux].  The two fields behind
    [Alias] are written and never read by the program; the model stores what the
    member decodes to from the zero value. *)
Definition storeAuxMember (acc : Aux * bool) (kv : string * json) : Aux * bool :=
  let '(aux, failed) := acc in
  let vd := aux_Alias aux in
  match lookupField auxFields (fst kv) with
  | None => acc
  | Some FHeartbeatStatuses =>
      match snd kv with
      | JArray elems =>
          let '(pairs, bad) := unmarshalSlice unmarshalPair [] elems in
          ({| aux_HeartbeatStatuses := pairs; aux_Alias := vd |}, failed || bad)
      | JNull => ({| aux_HeartbeatStatuses := []; aux_Alias := vd |}, failed)
      | _ => (aux, true)
      end
  | Some FHomeValidator =>
      match snd kv with
      | JString s =>
          ({| aux_HeartbeatStatuses := aux_HeartbeatStatuses aux;
              aux_Alias := {| HomeValidator := s;
                              ValidatorsMissingHeartbeat := ValidatorsMissingHeartbeat vd;
                              HeartbeatStatuses := HeartbeatStatuses vd |} |}, failed)
      | JNull => acc
      | _ => (aux, true)
      end
  | Some FValidatorsMissingHeartbeat =>
      match snd kv with
      | JArray elems =>
          let '(names, bad) := unmarshalSlice unmarshalString "" elems in
          ({| aux_HeartbeatStatuses := aux_HeartbeatStatuses aux;
              aux_Alias := {| HomeValidator := HomeValidator vd;
                              ValidatorsMissingHeartbeat := names;
                              HeartbeatStatuses := HeartbeatStatuses vd |} |}, failed || bad)
      | JNull =>
          ({| aux_HeartbeatStatuses := aux_HeartbeatStatuses aux;
              aux_Alias := {| HomeValidator := HomeValidator vd;
                              ValidatorsMissingHeartbeat := [];
                              HeartbeatStatuses := HeartbeatStatuses vd |} |}, failed)
      | _ => (aux, true)
      end
  end.

(** How a call that can fail or crash ends. *)
Inductive result (A : Type) : Type :=
| Ok (a : A)
| Err
| Panic.
Arguments Ok {A} a.
Arguments Err {A}.
Arguments Panic {A}.

(** [json.Unmarshal(data, &aux)], line 81.  [&aux] is a pointer to the pointer
    [aux]: the text [null] sets [aux] itself to nil without an error, which is
    [Ok None] here. *)
Definition unmarshalAux (vd : ValidatorData) (data : json) : result (option Aux) :=
  match data with
  | JObject members =>
      let start := {| aux_HeartbeatStatuses := []; aux_Alias := vd |} in
      let '(aux, failed) := fold_left storeAuxMember members (start, false) in
      if failed then Err else Ok (Some aux)
  | JNull => Ok None
  | _ => Err
  end.

(** The body of the loop of lines 87 to 108: one entry of [aux.HeartbeatStatuses]
    stored into the map, or skipped by one of the four [continue]s.
    [json.Marshal(entry[1])] writes a value that was just decoded and cannot
    fail. *)
Definition storeEntry (m : gmap string HeartbeatStatus) (entry : list json)
  : gmap string HeartbeatStatus :=
  match entry with
  | [k; v] =>
      match k with
      | JString key =>
          match unmarshalHeartbeatStatus v with
          | Some heartbeatStatus => <[key := heartbeatStatus]> m
          | None => m
          end
      | _ => m
      end
  | _ => m
  end.

(** The entries the loop stores: two elements, a string first, and a second
    that decodes into a [HeartbeatStatus]. *)
Definition wellFormedPair (entry : list json) : bool :=
  match entry with
  | [JString _; v] =>
      match unmarshalHeartbeatStatus v with
      | Some _ => true
      | None => false
      end
  | _ => false
  end.

(** The key and status an entry stores, [None] for an entry the loop skips. *)
Definition decodedPair (entry : list json) : option (string * HeartbeatStatus) :=
  match entry with
  | [JString key; v] =>
      match unmarshalHeartbeatStatus v with
      | Some heartbeatStatus => Some (key, heartbeatStatus)
      | None => None
      end
  | _ => None
  end.

(** Lines 86 to 108: the map is made empty and the entries are stored in order. *)
Definition convertHeartbeatStatuses (entries : list (list json)) : gmap string HeartbeatStatus :=
  fold_left storeEntry entries ∅.

(** [(vd *ValidatorData) UnmarshalJSON(data)].  With [aux] nil the range
    expression [aux.HeartbeatStatuses] of line 87 dereferences a nil pointer. *)
Definition UnmarshalJSON (vd : ValidatorData) (data : json) : result ValidatorData :=
  match unmarshalAux vd data with
  | Err => Err
  | Panic => Panic
  | Ok None => Panic
  | Ok (Some aux) =>
      Ok {| HomeValidator := HomeValidator (aux_Alias aux);
            ValidatorsMissingHeartbeat := ValidatorsMissingHeartbeat (aux_Alias aux);
            HeartbeatStatuses := convertHeartbeatStatuses (aux_HeartbeatStatuses aux) |}
  end.

End Unmarshal.
Export Unmarshal.

(** ** [fmt.Sprintf] *)

Module Fmt.

(** The operands the program passes to [fmt]: a string, a [float64], a
    [*float64] (the address it holds, [None] for nil) and an [error]. *)
Inductive operand : Type :=
| OString (s : string)
| OFloat64 (f : float)
| OPointer (p : option N)
| OError (msg : string).

Definition newline : string := String "010"%char EmptyString.

Section Render.

(** [%v] of a [float64] is [strconv]'s shortest decimal that reads back as the
    same value; the model takes it as given. *)
Variable fmtFloat64 : float -> string.

Definition typeName (o : operand) : string :=
  match o with
  | OString _ => "string"
  | OFloat64 _ => "float64"
  | OPointer _ => "*float64"
  | OError _ => "*errors.errorString"
  end.

(** [%v]: a string and an error as their text, a nil pointer as [<nil>], any
    other pointer as its address in hexadecimal. *)
Definition fmtValue (o : operand) : string :=
  match o with
  | OString s => s
  | OFloat64 f => fmtFloat64 f
  | OPointer None => "<nil>"
  | OPointer (Some a) => HexString.of_N a
  | OError msg => msg
  end.

(** One verb applied to one operand: [%s] and [%v] for a string or an error,
    [%w] ([fmt.Errorf]'s verb) for an error, [%v] for a float or a pointer; a
    verb the operand has no format for is written as [%!verb(type=value)]. *)
Definition fmtVerb (verb : ascii) (o : operand) : string :=
  let bad := "%!" ++ String verb ("(" ++ typeName o ++ "=" ++ fmtValue o ++ ")") in
  match o with
  | OString _ =>
      if Ascii.eqb verb "s" || Ascii.eqb verb "v" then fmtValue o else bad
  | OError _ =>
      if Ascii.eqb verb "s" || Ascii.eqb verb "v" || Ascii.eqb verb "w" then fmtValue o else bad
  | OFloat64 _ | OPointer _ =>
      if Ascii.eqb verb "v" then fmtValue o else bad
  end.

(** [fmt.Sprintf(format, args...)] for formats whose verbs carry no flags, with
    as many verbs as operands ([fmt.Errorf] formats its message the same way). *)
Fixpoint Sprintf (format : string) (args : list operand) : string :=
  match format with
  | EmptyString => EmptyString
  | String c rest =>
      if Ascii.eqb c "%" then
        match rest with
        | EmptyString => "%!(NOVERB)"
        | String verb rest' =>
            if Ascii.eqb verb "%" then String "%" (Sprintf rest' args)
            else
              match args with
              | [] => "%!" ++ String verb ("(MISSING)" ++ Sprintf rest' [])
              | o :: args' => fmtVerb verb o ++ Sprintf rest' args'
              end
        end
      else String c (Sprintf rest args)
  end.

End Render.

(** Formats whose operands are all strings need no float formatter. *)
Definition Sprintf_s (format : string) (args : list string) : string :=
  Sprintf (fun _ => "") format (List.map OString args).

End Fmt.
Export Fmt.

(** ** The alert evaluator: [processLogEntry] *)

Module Alert.

Record Config : Type := {
  SlackToken : string;
  SlackChannel : string;
  PagerDutyAPIKey : string;
  PagerDutyServiceID : string;
  BasePath : string;
  ValidatorAddress : string;
  CheckInterval : Z
}.

(** The lines the program writes with [log.Printf], by call site. *)
Inductive logLine : Type :=
| LogOpenError                    (* line 128 *)
| LogDecodeLineError              (* line 141 *)
| LogRawContent (raw : json)      (* line 148 *)
| LogBadTimestamp (first : json)  (* line 156 *)
| LogMarshalError                 (* line 162 *)
| LogDecodeValidatorError         (* line 168 *)
| LogNotArray                     (* line 181 *)
| LogTimestamp (timestamp : string). (* line 191 *)

(** What a run does to the outside, in order.  [PostMessage] and [ManageEvent]
    are the two requests; [Sleep seconds] is the call
    [time.Sleep(time.Duration(seconds) * time.Second)] with the configured
    number, not the [int64] product, which wraps from 9223372037 seconds up. *)
Inductive event : Type :=
| Printf (line : logLine)
| PostMessage (channel text : string)
| ManageEvent (routingKey summary : string)
| Close
| Sleep (seconds : Z).

(** A computation that emits events and either returns or panics ([None]). *)
Definition M (A : Type) : Type := (list event * option A)%type.

Definition ret {A : Type} (a : A) : M A := ([], Some a).

Definition bind {A B : Type} (m : M A) (k : A -> M B) : M B :=
  match m with
  | (es, None) => (es, None)
  | (es, Some a) => let '(es', r) := k a in ((es ++ es')%list, r)
  end.

Definition emit (e : event) : M unit := ([e], Some tt).

Definition panic {A : Type} : M A := ([], None).

Notation "x <- m ;; k" := (bind m (fun x => k))
  (at level 100, m at next level, right associativity).
Notation "m ;;; k" := (bind m (fun _ => k))
  (at level 100, right associativity).

(** [*p]: a nil pointer dereference panics. *)
Definition deref (p : option float) : M float :=
  match p with
  | Some d => ret d
  | None => panic
  end.

(** [a || b] and [a && b]: the right operand is evaluated only when the left one
    does not decide. *)
Definition orElse (a b : M bool) : M bool :=
  x <- a ;; if x then ret true else b.

Definition andAlso (a b : M bool) : M bool :=
  x <- a ;; if x then b else ret false.

(** The thresholds of line 193 as [float64] constants: here as in Go the
    decimal [0.02] stands for the binary64 value nearest to it,
    [0x1.47ae147ae147bp-6]. *)
Definition maxSinceLastSuccess : float := 40%float.
Definition maxLastAckDuration : float := 0.02%float.

(** The two senders, as the requests they make.  Whether a request fails is the
    network's; the line that lines 49 to 51 and 66 to 68 write to the log for
    a failed request is not part of the trace. *)
Definition sendSlackAlert (channel message : string) : M unit :=
  emit (PostMessage channel message).

Definition sendPagerDutyAlert (routingKey description : string) : M unit :=
  emit (ManageEvent routingKey description).

Section Evaluator.

Variable fmtFloat64 : float -> string.

Definition alertFormat : string :=
  "Alert for HyperLiq validator %s:" ++ newline
    ++ "since_last_success = %v, last_ack_duration = %v".

(** Lines 194 and 199.  The third operand is the pointer
    [status.LastAckDuration] itself; [ptr] is the address it holds when it is not
    nil, which the runtime chose when the decoder allocated the [float64]. *)
Definition alertMessage (config : Config) (status : HeartbeatStatus) (ptr : N) : string :=
  Sprintf fmtFloat64 alertFormat
    [OString (ValidatorAddress config);
     OFloat64 (SinceLastSuccess status);
     OPointer (match LastAckDuration status with Some _ => Some ptr | None => None end)].

Definition sendAlerts (config : Config) (status : HeartbeatStatus) (ptr : N) : M unit :=
  let alertMessage := alertMessage config status ptr in
  sendSlackAlert (SlackChannel config) alertMessage ;;;
  sendPagerDutyAlert (PagerDutyAPIKey config) alertMessage.

(** The condition of line 193. *)
Definition foundCondition (status : HeartbeatStatus) : M bool :=
  orElse (ret (maxSinceLastSuccess <? SinceLastSuccess status)%float)
    (orElse
       (andAlso (ret (bool_decide (LastAckDuration status ≠ None)))
          (d <- deref (LastAckDuration status) ;; ret (maxLastAckDuration <? d)%float))
       (ret (bool_decide (LastAckDuration status = None)))).

(** The condition of line 198, on the [status] the failed lookup left. *)
Definition notFoundCondition (status : HeartbeatStatus) : M bool :=
  orElse (ret (SinceLastSuccess status <=? 0)%float)
    (d <- deref (LastAckDuration status) ;; ret (d <=? 0)%float).

(** [processLogEntry(logEntry, slackClient, config)].  A lookup that misses
    leaves [status] at the zero value of [HeartbeatStatus]. *)
Definition processLogEntry (logEntry : LogArrayEntry) (config : Config) (ptr : N) : M unit :=
  emit (Printf (LogTimestamp (Timestamp logEntry))) ;;;
  match HeartbeatStatuses (Validator logEntry) !! ValidatorAddress config with
  | Some status =>
      c <- foundCondition status ;;
      if c then sendAlerts config status ptr else ret tt
  | None =>
      let status := zeroHeartbeatStatus in
      c <- notFoundCondition status ;;
      if c then sendAlerts config status ptr else ret tt
  end.

End Evaluator.

(** An alert fired when the run posted to Slack or triggered PagerDuty. *)
Definition isAlert (e : event) : bool :=
  match e with
  | PostMessage _ _ | ManageEvent _ _ => true
  | _ => false
  end.

Definition alerted {A : Type} (m : M A) : bool := existsb isAlert (fst m).

Definition panicked {A : Type} (m : M A) : bool :=
  match snd m with
  | None => true
  | Some _ => false
  end.

(** The status [processLogEntry] evaluates: the one found, or the zero value. *)
Definition evaluatedStatus (logEntry : LogArrayEntry) (config : Config) : HeartbeatStatus :=
  default zeroHeartbeatStatus
    (HeartbeatStatuses (Validator logEntry) !! ValidatorAddress config).

(** Whether [processLogEntry] sends the alert: the condition of line 193 for a
    status that was found, and of line 198, which the zero value satisfies, for
    one that was not. *)
Definition alertDecision (logEntry : LogArrayEntry) (config : Config) : bool :=
  match HeartbeatStatuses (Validator logEntry) !! ValidatorAddress config with
  | Some status =>
      (maxSinceLastSuccess <? SinceLastSuccess status)%float
      || match LastAckDuration status with
         | Some d => (maxLastAckDuration <? d)%float
         | None => true
         end
  | None => true
  end.

End Alert.
Export Alert.

(** ** One cycle of the poll loop of [main] *)

Module Poll.

(** The log file as [json.Decoder] sees it: a sequence of JSON texts, or bytes
    that are no JSON text (a cut line counts as such). *)
Inductive chunk : Type :=
| Value (raw : json)
| Garbage.

Inductive decodeError : Type := EOF | SyntaxError.

(** A [json.Decoder] keeps the first error it met and returns it from every
    later call. *)
Record Decoder : Type := {
  input : list chunk;
  err : option decodeError
}.

Definition NewDecoder (file : list chunk) : Decoder := {| input := file; err := None |}.

(** [decoder.Decode(&rawEntry)] into a [json.RawMessage]. *)
Definition Decoder_Decode (decoder : Decoder) : (decodeError + json) * Decoder :=
  match err decoder with
  | Some e => (inl e, decoder)
  | None =>
      match input decoder with
      | [] => (inl EOF, {| input := []; err := Some EOF |})
      | Value raw :: rest => (inr raw, {| input := rest; err := None |})
      | Garbage :: rest => (inl SyntaxError, {| input := Garbage :: rest; err := Some SyntaxError |})
      end
  end.

(** The loop of lines 135 to 145; [None] when [fuel] iterations did not reach the
    [break]. *)
Fixpoint readEntries (fuel : nat) (decoder : Decoder) (lastRawEntry : option json)
  : option (list event * option json) :=
  match fuel with
  | O => None
  | S fuel' =>
      match Decoder_Decode decoder with
      | (inl EOF, _) => Some ([], lastRawEntry)
      | (inl SyntaxError, decoder') =>
          match readEntries fuel' decoder' lastRawEntry with
          | Some (es, last) => Some (Printf LogDecodeLineError :: es, last)
          | None => None
          end
      | (inr rawEntry, decoder') => readEntries fuel' decoder' (Some rawEntry)
      end
  end.

(** [json.Unmarshal(lastRawEntry, &logArray)] into a [[]interface{}]. *)
Definition unmarshalLogArray (raw : json) : option (list json) :=
  match raw with
  | JArray elems => Some (List.map toInterface elems)
  | JNull => Some []
  | _ => None
  end.

(** The record the design document says a cycle evaluates: the last line that
    is a two-element array. *)
Definition spec_lastArrayLine (lines : list json) : option json :=
  last (List.filter (fun raw => match raw with JArray [_; _] => true | _ => false end) lines).

(** Where control goes after the block of lines 147 to 183: on to
    [file.Close()], or back to the top of the outer loop by a [continue]. *)
Inductive flow : Type := FallThrough | Continue.

Section Cycle.

Variable fmtFloat64 : float -> string.

(** Lines 148 to 182, for a [lastRawEntry] that is not nil.
    [json.Marshal(logArray[1])] cannot fail on a decoded value. *)
Definition evaluateLast (config : Config) (ptr : N) (lastRawEntry : json) : M flow :=
  emit (Printf (LogRawContent lastRawEntry)) ;;;
  match unmarshalLogArray lastRawEntry with
  | Some [first; second] =>
      match first with
      | JString timestamp =>
          match UnmarshalJSON zeroValidatorData second with
          | Err => emit (Printf LogDecodeValidatorError) ;;; ret Continue
          | Panic => panic
          | Ok validatorData =>
              let logEntry := {| Timestamp := timestamp; Validator := validatorData |} in
              processLogEntry fmtFloat64 logEntry config ptr ;;; ret FallThrough
          end
      | _ => emit (Printf (LogBadTimestamp first)) ;;; ret Continue
      end
  | _ => emit (Printf LogNotArray) ;;; ret FallThrough
  end.

(** Lines 185 and 186, which a [continue] skips. *)
Definition closeAndSleep (config : Config) (fl : flow) : M flow :=
  match fl with
  | Continue => ret Continue
  | FallThrough => emit Close ;;; emit (Sleep (CheckInterval config)) ;;; ret FallThrough
  end.

(** One iteration of the outer loop, lines 126 to 186.  [file] is what
    [os.Open] gave: [None] for an error. *)
Definition pollCycle (fuel : nat) (config : Config) (ptr : N) (file : option (list chunk))
  : option (M flow) :=
  match file with
  | None => Some (emit (Printf LogOpenError) ;;; emit (Sleep 30) ;;; ret Continue)
  | Some content =>
      match readEntries fuel (NewDecoder content) None with
      | None => None
      | Some (es, lastRawEntry) =>
          Some ((es, Some tt) ;;;
                (fl <- match lastRawEntry with
                       | Some raw => evaluateLast config ptr raw
                       | None => ret FallThrough
                       end ;;
                 closeAndSleep config fl))
      end
  end.

End Cycle.

End Poll.
Export Poll.

(** ** The latest-file locator *)

Module Locator.

Record DirEntry : Type := {
  Name : string;
  IsDir : bool
}.

(** [os.ReadDir]: the entries of a directory, or the text of an error. *)
Definition FileSystem : Type := string -> string + list DirEntry.

(** A [(string, error)] result; [IndexPanic] is an index out of range. *)
Inductive located : Type :=
| Located (path : string)
| Failed (message : string)
| IndexPanic.

(** The names of the subdirectories, and of the other entries, of a listing. *)
Definition dirsOf (entries : list DirEntry) : list string :=
  List.map Name (List.filter IsDir entries).

Definition filesOf (entries : list DirEntry) : list string :=
  List.map Name (List.filter (fun entry => negb (IsDir entry)) entries).

(** The loop of lines 236 to 241. *)
Definition latestOf (dirs : list string) (first : string) : string :=
  fold_left (fun latestDir dir => if String.ltb latestDir dir then dir else latestDir) dirs first.

Definition findLatestDir (ReadDir : FileSystem) (basePath : string) : located :=
  match ReadDir basePath with
  | inl e => Failed e
  | inr entries =>
      let dirs := List.map Name (List.filter IsDir entries) in
      match dirs with
      | [] => Failed (Sprintf_s "no directories found in %s" [basePath])
      | first :: _ => Located (Sprintf_s "%s/%s" [basePath; latestOf dirs first])
      end
  end.

Definition digitOf (c : ascii) : option Z :=
  let n := N_of_ascii c in
  if N.leb 48 n && N.leb n 57 then Some (Z.of_N (n - 48)) else None.

Fixpoint parseDigits (s : string) (n : Z) : option Z :=
  match s with
  | EmptyString => Some n
  | String ch rest =>
      match digitOf ch with
      | Some d => parseDigits rest (n * 10 + d)
      | None => None
      end
  end.

(** [strconv.Atoi] with a 64-bit [int]: an optional sign, then one or more
    decimal digits; [None] for a syntax error or a value out of range. *)
Definition Atoi (s : string) : option Z :=
  let '(negative, digits) :=
    match s with
    | String "-" rest => (true, rest)
    | String "+" rest => (false, rest)
    | _ => (false, s)
    end in
  match digits with
  | EmptyString => None
  | _ =>
      match parseDigits digits 0 with
      | Some n =>
          let v := if negative then (- n)%Z else n in
          if Z.leb (- 2 ^ 63) v && Z.leb v (2 ^ 63 - 1) then Some v else None
      | None => None
      end
  end.

(** The [less] of lines 263 to 270, on the two names it reads. *)
Definition fileLess (a b : string) : bool :=
  match Atoi a, Atoi b with
  | Some iInt, Some jInt => Z.ltb iInt jInt
  | _, _ => String.ltb a b
  end.

Section Sorting.

(** [sort.Slice(files, less)], as the function from the slice before to the
    slice after. *)
Variable sortSlice : (string -> string -> bool) -> list string -> list string.

Definition findLatestFile (ReadDir : FileSystem) (dirPath : string) : located :=
  match ReadDir dirPath with
  | inl e => Failed e
  | inr entries =>
      let files := List.map Name (List.filter (fun entry => negb (IsDir entry)) entries) in
      match files with
      | [] => Failed (Sprintf_s "no files found in %s" [dirPath])
      | _ :: _ =>
          match last (sortSlice fileLess files) with
          | Some latestFile => Located (Sprintf_s "%s/%s" [dirPath; latestFile])
          | None => IndexPanic
          end
      end
  end.

Definition findLatestLogFile (ReadDir : FileSystem) (basePath : string) : located :=
  match findLatestDir ReadDir basePath with
  | Failed e => Failed (Sprintf (fun _ => "") "failed to find latest date directory: %w" [OError e])
  | IndexPanic => IndexPanic
  | Located latestDateDir =>
      match findLatestFile ReadDir latestDateDir with
      | Failed e => Failed (Sprintf (fun _ => "") "failed to find latest log file: %w" [OError e])
      | IndexPanic => IndexPanic
      | Located latestLogFile => Located latestLogFile
      end
  end.

End Sorting.

(** What [sort.Slice] asks of [less] on the elements it sorts: a strict weak
    ordering. *)
Definition strictWeakOn (less : string -> string -> bool) (xs : list string) : Prop :=
  (forall a, a ∈ xs -> less a a = false) /\
  (forall a b c, a ∈ xs -> b ∈ xs -> c ∈ xs ->
     less a b = true -> less b c = true -> less a c = true) /\
  (forall a b c, a ∈ xs -> b ∈ xs -> c ∈ xs ->
     less a b = false -> less b c = false -> less a c = false).

(** [sort.SliceIsSorted]: no element is less than the one before it. *)
Definition isSorted (less : string -> string -> bool) (xs : list string) : Prop :=
  Sorted (fun a b => less b a = false) xs.

(** What the program relies on from [sort.Slice]: it only swaps elements, and it
    sorts when [less] is a strict weak ordering; the order is not stable and is
    left open for any other [less]. *)
Class SortContract (sortSlice : (string -> string -> bool) -> list string -> list string)
  : Prop := {
  sortSlice_perm : forall less xs, sortSlice less xs ≡ₚ xs;
  sortSlice_sorted : forall less xs, strictWeakOn less xs -> isSorted less (sortSlice less xs)
}.

(** An insertion sort, one function that meets the contract.  The sorted prefix
    is kept in reverse, so that [x] moves left past every element it is less
    than. *)
Fixpoint insertRev (less : string -> string -> bool) (x : string) (revPrefix : list string)
  : list string :=
  match revPrefix with
  | [] => [x]
  | y :: rest => if less x y then y :: insertRev less x rest else x :: y :: rest
  end.

Definition insertionSort (less : string -> string -> bool) (xs : list string) : list string :=
  reverse (fold_left (fun revPrefix x => insertRev less x revPrefix) xs []).

End Locator.
Export Locator.

(** ** Sample inputs *)

Module Samples.

Definition config0 : Config :=
  {| SlackToken := "xoxb-token"; SlackChannel := "#alerts"; PagerDutyAPIKey := "routing-key";
     PagerDutyServiceID := "svc"; BasePath := "/logs"; ValidatorAddress := "0xabc";
     CheckInterval := 5 |}.

Definition status (since : float) (ack : option float) : HeartbeatStatus :=
  {| SinceLastSuccess := since; LastAckDuration := ack |}.

Definition entryOf (statuses : gmap string HeartbeatStatus) : LogArrayEntry :=
  {| Timestamp := "2024-01-02T00:00:00";
     Validator := {| HomeValidator := "0xabc"; ValidatorsMissingHeartbeat := [];
                     HeartbeatStatuses := statuses |} |}.

(** [%v] of the few floats the samples print. *)
Definition fmtSample (f : float) : string :=
  if PrimFloat.eqb f 41 then "41" else if PrimFloat.eqb f 10 then "10" else "0".

Definition entryQuiet : LogArrayEntry :=
  entryOf {[ "0xabc" := status 10 (Some 0.01%float) ]}.

Definition entryOther : LogArrayEntry :=
  entryOf {[ "0xdef" := status 10 (Some 0.01%float) ]}.

(** A status object as [json.Marshal] writes it, keys in byte order. *)
Definition statusObject (since : float) (ack : json) : json :=
  JObject [("last_ack_duration", ack); ("since_last_success", JNumber since)].

(** A log line whose record alerts for [0xabc], and a line that is JSON but no
    array. *)
Definition lineAlert : json :=
  JArray [JString "2024-01-02T00:00:00";
          JObject [("heartbeat_statuses",
                    JArray [JArray [JString "0xabc"; statusObject 41 (JNumber 0.01)]])]].

Definition lineObject : json := JObject [].

(** Pairs of a [heartbeat_statuses] array: two for [0xabc], one for [0xdef], and
    three that the loop skips. *)
Definition samplePairs : list (list json) :=
  [ [JString "0xabc"; statusObject 10 (JNumber 0.01)];
    [JString "0xdef"; statusObject 10 JNull; JNull];
    [JNumber 7; statusObject 10 JNull];
    [JString "0xabc"; statusObject 41 JNull];
    [JString "0xdef"; statusObject 5 (JNumber 0)];
    [JString "0xabc"; JString "down"] ].

(** A status object whose only key for the duration is in upper case. *)
Definition upperCaseMembers : list (string * json) :=
  [("LAST_ACK_DURATION", JNumber 0.5); ("since_last_success", JNumber 1)].

(** A log tree: three date directories and a file under [/logs], three log
    files and a directory under the latest date. *)
Definition sampleFS : FileSystem := fun path =>
  if String.eqb path "/logs" then
    inr [ {| Name := "2023-12-31"; IsDir := true |};
          {| Name := "2024-01-01"; IsDir := true |};
          {| Name := "2024-01-02"; IsDir := true |};
          {| Name := "README"; IsDir := false |} ]
  else if String.eqb path "/logs/2024-01-02" then
    inr [ {| Name := "10"; IsDir := false |};
          {| Name := "2"; IsDir := false |};
          {| Name := "9"; IsDir := false |};
          {| Name := "archive"; IsDir := true |} ]
  else inl "open: no such file or directory".

End Samples.
Import Samples.

#[local] Arguments String.append !_ _ : simpl nomatch.

(** * Properties *)

(** ** The alert evaluator *)

Section AlertProperties.

Variable fmtFloat64 : float -> string.

(** The condition of line 193 never panics: the dereference is guarded by the
    nil test to its left. *)
Lemma foundCondition_ret (st : HeartbeatStatus) :
  foundCondition st =
  ret ((maxSinceLastSuccess <? SinceLastSuccess st)%float
       || match LastAckDuration st with
          | Some d => (maxLastAckDuration <? d)%float
          | None => true
          end).
Proof.
  unfold foundCondition, orElse, andAlso.
  destruct st as [since [d|]]; simpl;
    destruct (maxSinceLastSuccess <? since)%float; simpl; try reflexivity.
  destruct (maxLastAckDuration <? d)%float; reflexivity.
Qed.

(** The condition of line 198 on the zero value: [0 <= 0] decides the [||], and
    the dereference to its right is not evaluated. *)
Lemma notFoundCondition_zero : notFoundCondition zeroHeartbeatStatus = ret true.
Proof. reflexivity. Qed.

Lemma processLogEntry_found (logEntry : LogArrayEntry) (config : Config) (ptr : N)
    (st : HeartbeatStatus) :
  HeartbeatStatuses (Validator logEntry) !! ValidatorAddress config = Some st ->
  processLogEntry fmtFloat64 logEntry config ptr =
  if (maxSinceLastSuccess <? SinceLastSuccess st)%float
     || match LastAckDuration st with
        | Some d => (maxLastAckDuration <? d)%float
        | None => true
        end
  then ([Printf (LogTimestamp (Timestamp logEntry));
         PostMessage (SlackChannel config) (alertMessage fmtFloat64 config st ptr);
         ManageEvent (PagerDutyAPIKey config) (alertMessage fmtFloat64 config st ptr)],
        Some tt)
  else ([Printf (LogTimestamp (Timestamp logEntry))], Some tt).
Proof.
  intros Hfound. unfold processLogEntry. rewrite Hfound, foundCondition_ret.
  destruct (_ || _); reflexivity.
Qed.

Lemma processLogEntry_not_found (logEntry : LogArrayEntry) (config : Config) (ptr : N) :
  HeartbeatStatuses (Validator logEntry) !! ValidatorAddress config = None ->
  processLogEntry fmtFloat64 logEntry config ptr =
  ([Printf (LogTimestamp (Timestamp logEntry));
    PostMessage (SlackChannel config) (alertMessage fmtFloat64 config zeroHeartbeatStatus ptr);
    ManageEvent (PagerDutyAPIKey config) (alertMessage fmtFloat64 config zeroHeartbeatStatus ptr)],
   Some tt).
Proof.
  intros Hmiss. unfold processLogEntry. rewrite Hmiss. reflexivity.
Qed.

(** C1.  When the map holds the configured address, [processLogEntry] fires an
    alert exactly when [since_last_success > 40], or [last_ack_duration] is
    present and [> 0.02], or [last_ack_duration] is absent, and it never panics;
    for [since_last_success = 10] and [last_ack_duration = 0.01] no alert
    fires. *)
Theorem processLogEntry_found_alert_iff (logEntry : LogArrayEntry) (config : Config)
    (ptr : N) (st : HeartbeatStatus) :
  HeartbeatStatuses (Validator logEntry) !! ValidatorAddress config = Some st ->
  let run := processLogEntry fmtFloat64 logEntry config ptr in
  (alerted run = true <->
     (40 <? SinceLastSuccess st)%float = true
     \/ (exists d, LastAckDuration st = Some d /\ (0.02 <? d)%float = true)
     \/ LastAckDuration st = None)
  /\ panicked run = false
  /\ (SinceLastSuccess st = 10%float -> LastAckDuration st = Some 0.01%float ->
      alerted run = false).
Proof.
  intros Hfound run. subst run. rewrite (processLogEntry_found _ _ _ _ Hfound).
  unfold maxSinceLastSuccess, maxLastAckDuration.
  destruct st as [since ack]; simpl.
  split; [|split].
  - destruct (40 <? since)%float eqn:Hsince; simpl.
    + split; [intros _; left; reflexivity | reflexivity].
    + destruct ack as [d|]; simpl.
      * destruct (0.02 <? d)%float eqn:Hack; simpl.
        -- split; [intros _; right; left; exists d; split; [reflexivity | exact Hack] | reflexivity].
        -- split; [discriminate|].
           intros [H | [[d' [Hd Hlt]] | H]]; [discriminate | | discriminate].
           injection Hd as <-. rewrite Hack in Hlt. discriminate.
      * split; [intros _; right; right; reflexivity | reflexivity].
  - destruct (_ || _); reflexivity.
  - intros -> ->. reflexivity.
Qed.

(** C3, as the code has it.  When the configured address is missing from the
    map, [processLogEntry] takes the not-found branch with [status] at the zero
    value: [since_last_success <= 0] holds there, the [||] does not evaluate the
    dereference of the nil [last_ack_duration], nothing panics, and the alert
    is sent with the zero values. *)
Theorem processLogEntry_not_found_alerts (logEntry : LogArrayEntry) (config : Config)
    (ptr : N) :
  HeartbeatStatuses (Validator logEntry) !! ValidatorAddress config = None ->
  let run := processLogEntry fmtFloat64 logEntry config ptr in
  notFoundCondition zeroHeartbeatStatus = ret true
  /\ panicked run = false
  /\ run = ([Printf (LogTimestamp (Timestamp logEntry));
            PostMessage (SlackChannel config)
              (alertMessage fmtFloat64 config zeroHeartbeatStatus ptr);
            ManageEvent (PagerDutyAPIKey config)
              (alertMessage fmtFloat64 config zeroHeartbeatStatus ptr)], Some tt).
Proof.
  intros Hmiss run. subst run. rewrite (processLogEntry_not_found _ _ _ Hmiss).
  split; [exact notFoundCondition_zero | split; reflexivity].
Qed.

Lemma string_app_nil_r (s : string) : s ++ "" = s.
Proof. induction s as [|c s IH]; simpl; [reflexivity | rewrite IH; reflexivity]. Qed.

Lemma string_app_assoc (a b c : string) : (a ++ b) ++ c = a ++ (b ++ c).
Proof. induction a as [|x a IH]; simpl; [reflexivity | rewrite IH; reflexivity]. Qed.

Lemma string_app_length (a b : string) :
  String.length (a ++ b) = (String.length a + String.length b)%nat.
Proof. induction a as [|x a IH]; simpl; [reflexivity | rewrite IH; reflexivity]. Qed.

(** Two texts that are equal have equal endings of equal length. *)
Lemma string_app_inj_tail (a b s t : string) :
  String.length s = String.length t -> a ++ s = b ++ t -> a = b /\ s = t.
Proof.
  revert b. induction a as [|x a IH]; intros [|y b] Hlen Heq; simpl in Heq.
  - split; [reflexivity | exact Heq].
  - exfalso. apply (f_equal String.length) in Heq. simpl in Heq.
    rewrite string_app_length in Heq. lia.
  - exfalso. apply (f_equal String.length) in Heq. simpl in Heq.
    rewrite string_app_length in Heq. lia.
  - injection Heq as -> Heq. destruct (IH b Hlen Heq) as [-> ->]. split; reflexivity.
Qed.

Lemma alertMessage_unfold (config : Config) (st : HeartbeatStatus) (ptr : N) :
  alertMessage fmtFloat64 config st ptr =
  "Alert for HyperLiq validator " ++ ValidatorAddress config ++ ":" ++ newline
    ++ "since_last_success = " ++ fmtFloat64 (SinceLastSuccess st)
    ++ ", last_ack_duration = "
    ++ match LastAckDuration st with
       | Some _ => HexString.of_N ptr
       | None => "<nil>"
       end.
Proof.
  unfold alertMessage, alertFormat. cbn -[HexString.of_N].
  destruct (LastAckDuration st); cbn -[HexString.of_N];
    rewrite ?string_app_nil_r; reflexivity.
Qed.

(** C9, as the code has it.  Every alert [processLogEntry] sends carries the text
    of [alertMessage] for the status it evaluated.  That text holds the
    configured address and [%v] of [since_last_success]; when
    [last_ack_duration] is absent it ends in [<nil>], and is then determined by
    the address and [since_last_success] alone. *)
Theorem alert_message_contents (logEntry : LogArrayEntry) (config : Config) (ptr : N) :
  let st := evaluatedStatus logEntry config in
  let run := processLogEntry fmtFloat64 logEntry config ptr in
  (forall e, e ∈ fst run -> isAlert e = true ->
     e = PostMessage (SlackChannel config) (alertMessage fmtFloat64 config st ptr)
     \/ e = ManageEvent (PagerDutyAPIKey config) (alertMessage fmtFloat64 config st ptr))
  /\ (exists tail,
        alertMessage fmtFloat64 config st ptr =
          "Alert for HyperLiq validator " ++ ValidatorAddress config ++ ":" ++ newline
            ++ "since_last_success = " ++ fmtFloat64 (SinceLastSuccess st)
            ++ ", last_ack_duration = " ++ tail
        /\ (LastAckDuration st = None -> tail = "<nil>")).
Proof.
  intros st run. subst st run. unfold evaluatedStatus. split.
  - destruct (HeartbeatStatuses (Validator logEntry) !! ValidatorAddress config)
      as [st|] eqn:Hlookup; simpl.
    + rewrite (processLogEntry_found _ _ _ _ Hlookup).
      destruct (_ || _); simpl; intros e He Halert;
        repeat (apply elem_of_cons in He as [-> | He]); try discriminate; auto;
        apply elem_of_nil in He; contradiction.
    + rewrite (processLogEntry_not_found _ _ _ Hlookup). simpl. intros e He Halert.
      repeat (apply elem_of_cons in He as [-> | He]); try discriminate; auto.
      apply elem_of_nil in He; contradiction.
  - eexists. split; [apply alertMessage_unfold|].
    intros ->. reflexivity.
Qed.

End AlertProperties.

Lemma processLogEntry_found_alert_iff_witness :
  alerted (processLogEntry fmtSample entryQuiet config0 0) = false.
Proof.
  refine (proj2 (proj2 (processLogEntry_found_alert_iff fmtSample entryQuiet config0 0
                          (status 10 (Some 0.01%float)) _)) _ _);
    reflexivity.
Defined.

Lemma processLogEntry_not_found_alerts_witness :
  panicked (processLogEntry fmtSample entryOther config0 0) = false.
Proof.
  refine (proj1 (proj2 (processLogEntry_not_found_alerts fmtSample entryOther config0 0 _))).
  reflexivity.
Defined.

(** C3, as stated, fails: with the address missing from the map the run does not
    reach the dereference of the nil pointer, whatever the float formatter. *)
Lemma not_found_branch_does_not_dereference :
  notFoundCondition zeroHeartbeatStatus = ret true
  /\ ~ exists fmt, panicked (processLogEntry fmt entryOther config0 0) = true.
Proof.
  split; [reflexivity|].
  intros [fmt H].
  rewrite (processLogEntry_not_found fmt entryOther config0 0 eq_refl) in H.
  discriminate.
Qed.

(** C9, as stated, fails: an absent [last_ack_duration] is written [<nil>], so
    no float formatter makes the message end in [last_ack_duration = none]. *)
Lemma alert_message_absent_is_not_none :
  ~ exists (fmt : float -> string) (before : string),
      alertMessage fmt config0 (status 41 None) 0 = before ++ "last_ack_duration = none".
Proof.
  intros [fmt [before H]]. rewrite alertMessage_unfold in H.
  change (LastAckDuration (status 41 None)) with (@None float) in H. cbv iota in H.
  change (before ++ "last_ack_duration = none")
    with (before ++ ("last_ack_duration =" ++ " none")) in H.
  rewrite <- !string_app_assoc in H.
  apply string_app_inj_tail in H as [_ H]; [discriminate | reflexivity].
Qed.

Lemma alert_message_contents_witness :
  alertMessage fmtSample config0 (evaluatedStatus entryOther config0) 0
  = "Alert for HyperLiq validator 0xabc:" ++ newline
      ++ "since_last_success = 0, last_ack_duration = <nil>".
Proof.
  destruct (proj2 (alert_message_contents fmtSample entryOther config0 0))
    as [tail [Htext Htail]].
  rewrite Htext, (Htail eq_refl). reflexivity.
Defined.

(** For a present [last_ack_duration] the message shows where the [float64]
    is stored, not the duration: one address with two durations gives one
    message, and one duration at two addresses gives two. *)
Example alert_message_prints_pointer :
  alertMessage fmtSample config0 (status 41 (Some 0.01%float)) 824633802920
  = "Alert for HyperLiq validator 0xabc:" ++ newline
      ++ "since_last_success = 41, last_ack_duration = 0xc0000140a8"
  /\ alertMessage fmtSample config0 (status 41 (Some 0.01%float)) 824633802920
     = alertMessage fmtSample config0 (status 41 (Some 0.03%float)) 824633802920
  /\ alertMessage fmtSample config0 (status 41 (Some 0.01%float)) 824633802920
     <> alertMessage fmtSample config0 (status 41 (Some 0.01%float)) 824633802928.
Proof.
  split; [vm_compute; reflexivity | split; [vm_compute; reflexivity|]].
  vm_compute. intros H. discriminate H.
Qed.

(** The four evaluations the design document lists for a found address. *)
Example evaluator_examples :
  alerted (processLogEntry fmtSample
             (entryOf {[ "0xabc" := status 41 (Some 0.01%float) ]}) config0 0) = true
  /\ alerted (processLogEntry fmtSample
                (entryOf {[ "0xabc" := status 10 (Some 0.03%float) ]}) config0 0) = true
  /\ alerted (processLogEntry fmtSample
                (entryOf {[ "0xabc" := status 10 None ]}) config0 0) = true
  /\ alerted (processLogEntry fmtSample entryQuiet config0 0) = false.
Proof. repeat split; vm_compute; reflexivity. Qed.


(** ** Byte order on strings *)

Section StringOrder.

Lemma string_ltb_leb (a b : string) : String.ltb a b = negb (String.leb b a).
Proof.
  unfold String.ltb, String.leb. rewrite (String.compare_antisym b a).
  destruct (String.compare a b); reflexivity.
Qed.

Lemma string_leb_refl (a : string) : String.leb a a = true.
Proof.
  pose proof (String.leb_total a a) as [H | H]; exact H.
Qed.

Lemma string_leb_trans (a b c : string) :
  String.leb a b = true -> String.leb b c = true -> String.leb a c = true.
Proof.
  intros Hab Hbc. apply Is_true_true.
  apply (@transitivity _ String.le _ a b c); apply Is_true_true; assumption.
Qed.

Lemma string_ltb_irrefl (a : string) : String.ltb a a = false.
Proof. rewrite string_ltb_leb, string_leb_refl. reflexivity. Qed.

Lemma string_ltb_leb_incl (a b : string) : String.ltb a b = true -> String.leb a b = true.
Proof.
  rewrite string_ltb_leb. intros H. destruct (String.leb_total a b) as [Hab | Hba];
    [exact Hab | rewrite Hba in H; discriminate].
Qed.

Lemma string_ltb_false_leb (a b : string) : String.ltb a b = false -> String.leb b a = true.
Proof. rewrite string_ltb_leb. destruct (String.leb b a); [reflexivity | discriminate]. Qed.

Lemma string_ltb_trans (a b c : string) :
  String.ltb a b = true -> String.ltb b c = true -> String.ltb a c = true.
Proof.
  intros Hab Hbc. rewrite string_ltb_leb.
  destruct (String.leb c a) eqn:Hca; [|reflexivity]. exfalso.
  assert (Hcb : String.leb c b = true)
    by (eapply string_leb_trans; [exact Hca | apply string_ltb_leb_incl; exact Hab]).
  rewrite string_ltb_leb, Hcb in Hbc. discriminate.
Qed.

Lemma string_ltb_negtrans (a b c : string) :
  String.ltb a b = false -> String.ltb b c = false -> String.ltb a c = false.
Proof.
  intros Hab Hbc. rewrite string_ltb_leb.
  rewrite (string_leb_trans c b a); [reflexivity | |];
    apply string_ltb_false_leb; assumption.
Qed.

End StringOrder.

(** ** The decoder *)

Section DecoderProperties.

Implicit Types (entries : list (list json)) (m : gmap string HeartbeatStatus).

Lemma storeEntry_malformed m (entry : list json) :
  wellFormedPair entry = false -> storeEntry m entry = m.
Proof.
  unfold wellFormedPair, storeEntry.
  destruct entry as [|k [|v [|x rest]]]; try reflexivity;
    destruct k; try reflexivity.
  destruct (unmarshalHeartbeatStatus v); [discriminate | reflexivity].
Qed.

Lemma storeEntry_wellFormed m (key : string) (v : json) (hs : HeartbeatStatus) :
  unmarshalHeartbeatStatus v = Some hs -> storeEntry m [JString key; v] = <[key := hs]> m.
Proof. intros H. unfold storeEntry. rewrite H. reflexivity. Qed.

Lemma wellFormedPair_inv (entry : list json) :
  wellFormedPair entry = true ->
  exists key v hs, entry = [JString key; v] /\ unmarshalHeartbeatStatus v = Some hs.
Proof.
  unfold wellFormedPair.
  destruct entry as [|k [|v [|x rest]]]; try discriminate;
    destruct k; try discriminate.
  destruct (unmarshalHeartbeatStatus v) as [hs|] eqn:Hv; [|discriminate].
  intros _. exists s, v, hs. split; [reflexivity | exact Hv].
Qed.

Lemma fold_storeEntry_filter entries m :
  fold_left storeEntry entries m
  = fold_left storeEntry (List.filter wellFormedPair entries) m.
Proof.
  revert m. induction entries as [|e entries IH]; intros m; simpl; [reflexivity|].
  destruct (wellFormedPair e) eqn:He; simpl.
  - apply IH.
  - rewrite (storeEntry_malformed _ _ He). apply IH.
Qed.

(** Where a key of the result comes from: the start map, or a well-formed pair. *)
Lemma fold_storeEntry_lookup_inv entries m (key : string) (hs : HeartbeatStatus) :
  fold_left storeEntry entries m !! key = Some hs ->
  m !! key = Some hs
  \/ exists v, [JString key; v] ∈ entries /\ unmarshalHeartbeatStatus v = Some hs.
Proof.
  revert m. induction entries as [|e entries IH]; intros m Hm; simpl in Hm; [left; exact Hm|].
  destruct (IH _ Hm) as [Hstart | [v [Hin Hv]]].
  - destruct (wellFormedPair e) eqn:He.
    + destruct (wellFormedPair_inv _ He) as [k [v [hs' [-> Hv]]]].
      rewrite (storeEntry_wellFormed _ _ _ _ Hv) in Hstart.
      destruct (decide (k = key)) as [->|Hne].
      * rewrite lookup_insert_eq in Hstart. injection Hstart as ->.
        right. exists v. split; [apply list_elem_of_here | exact Hv].
      * rewrite lookup_insert_ne in Hstart by exact Hne. left. exact Hstart.
    + rewrite (storeEntry_malformed _ _ He) in Hstart. left. exact Hstart.
  - right. exists v. split; [apply list_elem_of_further; exact Hin | exact Hv].
Qed.

(** A key that is in the map stays in it. *)
Lemma fold_storeEntry_is_Some entries m (key : string) :
  is_Some (m !! key) -> is_Some (fold_left storeEntry entries m !! key).
Proof.
  revert m. induction entries as [|e entries IH]; intros m Hm; simpl; [exact Hm|].
  apply IH. destruct (wellFormedPair e) eqn:He.
  - destruct (wellFormedPair_inv _ He) as [k [v [hs' [-> Hv]]]].
    rewrite (storeEntry_wellFormed _ _ _ _ Hv).
    destruct (decide (k = key)) as [->|Hne].
    + rewrite lookup_insert_eq. eexists; reflexivity.
    + rewrite lookup_insert_ne by exact Hne. exact Hm.
  - rewrite (storeEntry_malformed _ _ He). exact Hm.
Qed.

(** Entries that do not store to [key] leave its status as it is. *)
Lemma fold_storeEntry_lookup_skip entries m (key : string) :
  (forall v, [JString key; v] ∈ entries -> unmarshalHeartbeatStatus v = None) ->
  fold_left storeEntry entries m !! key = m !! key.
Proof.
  revert m. induction entries as [|e entries IH]; intros m Hnone; simpl; [reflexivity|].
  rewrite IH by (intros v Hv; apply Hnone; apply list_elem_of_further; exact Hv).
  destruct (wellFormedPair e) eqn:He.
  - destruct (wellFormedPair_inv _ He) as [k [v [hs' [-> Hv]]]].
    rewrite (storeEntry_wellFormed _ _ _ _ Hv).
    destruct (decide (k = key)) as [->|Hne].
    + rewrite (Hnone v) in Hv by apply list_elem_of_here. discriminate.
    + apply lookup_insert_ne. exact Hne.
  - rewrite (storeEntry_malformed _ _ He). reflexivity.
Qed.

(** C4.  The loop of [UnmarshalJSON] decodes the pairs one by one: an entry
    that has not exactly two elements, or whose first element is no string, or
    whose second element does not decode into a [HeartbeatStatus], changes
    nothing; the map is the one the well-formed pairs alone give, each of its
    keys comes from a well-formed pair, every well-formed pair has its key in
    it, and [UnmarshalJSON] returns that map without an error. *)
Theorem convert_partial_decode entries :
  let m := convertHeartbeatStatuses entries in
  (forall m' (entry : list json),
      length entry <> 2%nat
      \/ (exists k v, entry = [k; v] /\ forall s, k <> JString s)
      \/ (exists k v, entry = [k; v] /\ unmarshalHeartbeatStatus v = None) ->
      storeEntry m' entry = m')
  /\ m = convertHeartbeatStatuses (List.filter wellFormedPair entries)
  /\ (forall key hs, m !! key = Some hs ->
        exists v, [JString key; v] ∈ entries /\ unmarshalHeartbeatStatus v = Some hs)
  /\ (forall key v hs, [JString key; v] ∈ entries -> unmarshalHeartbeatStatus v = Some hs ->
        is_Some (m !! key))
  /\ (forall vd data aux, unmarshalAux vd data = Ok (Some aux) ->
        aux_HeartbeatStatuses aux = entries ->
        exists vd', UnmarshalJSON vd data = Ok vd' /\ HeartbeatStatuses vd' = m).
Proof.
  intros m. subst m. unfold convertHeartbeatStatuses. repeat split.
  - intros m' entry [Hlen | [[k [v [-> Hk]]] | [k [v [-> Hv]]]]].
    + apply storeEntry_malformed. unfold wellFormedPair.
      destruct entry as [|k [|v [|x rest]]]; try reflexivity;
        destruct k; try reflexivity. simpl in Hlen. lia.
    + apply storeEntry_malformed. unfold wellFormedPair.
      destruct k; try reflexivity. destruct (Hk s). reflexivity.
    + apply storeEntry_malformed. unfold wellFormedPair.
      destruct k; try reflexivity. rewrite Hv. reflexivity.
  - apply fold_storeEntry_filter.
  - intros key hs Hm. destruct (fold_storeEntry_lookup_inv _ _ _ _ Hm) as [Hempty | H].
    + rewrite lookup_empty in Hempty. discriminate.
    + exact H.
  - intros key v hs Hin Hv.
    apply list_elem_of_split in Hin as [before [after ->]].
    rewrite fold_left_app. cbn [fold_left]. apply fold_storeEntry_is_Some.
    rewrite (storeEntry_wellFormed _ _ _ _ Hv), lookup_insert_eq. eexists; reflexivity.
  - intros vd data aux Haux Hentries. unfold UnmarshalJSON. rewrite Haux.
    eexists. split; [reflexivity|]. simpl. rewrite Hentries. reflexivity.
Qed.

Lemma filter_fst_unique (l : list (string * HeartbeatStatus)) (key : string)
    (hs : HeartbeatStatus) :
  NoDup (l.*1) -> (key, hs) ∈ l ->
  List.filter (fun kv => bool_decide (fst kv = key)) l = [(key, hs)].
Proof.
  induction l as [|[k x] l IH]; intros Hnd Hin.
  - apply elem_of_nil in Hin. contradiction.
  - simpl in Hnd. apply NoDup_cons in Hnd as [Hk Hnd]. simpl.
    apply elem_of_cons in Hin as [Heq | Hin].
    + injection Heq as <- <-. rewrite bool_decide_eq_true_2 by reflexivity. f_equal.
      clear IH. induction l as [|[k' x'] l IHl]; [reflexivity|]. simpl.
      simpl in Hk. apply not_elem_of_cons in Hk as [Hne Hk].
      apply NoDup_cons in Hnd as [_ Hnd].
      rewrite bool_decide_eq_false_2 by (intros ->; apply Hne; reflexivity).
      apply IHl; assumption.
    + rewrite bool_decide_eq_false_2.
      * apply IH; assumption.
      * simpl. intros ->. apply Hk. apply list_elem_of_fmap. exists (key, hs). split; [reflexivity | exact Hin].
Qed.

(** C10.  Of the well-formed pairs with one address the last in sequence order
    decides: the map holds exactly one entry for the address, with the status
    of that last pair. *)
Theorem convert_last_pair_wins (before after : list (list json)) (key : string) (v : json)
    (hs : HeartbeatStatus) :
  unmarshalHeartbeatStatus v = Some hs ->
  (forall v', [JString key; v'] ∈ after -> unmarshalHeartbeatStatus v' = None) ->
  let m := convertHeartbeatStatuses (before ++ [JString key; v] :: after) in
  m !! key = Some hs
  /\ List.filter (fun kv => bool_decide (fst kv = key)) (map_to_list m) = [(key, hs)].
Proof.
  intros Hv Hafter m.
  assert (Hm : m !! key = Some hs).
  { subst m. unfold convertHeartbeatStatuses. rewrite fold_left_app. cbn [fold_left].
    rewrite (fold_storeEntry_lookup_skip _ _ _ Hafter).
    rewrite (storeEntry_wellFormed _ _ _ _ Hv). apply lookup_insert_eq. }
  split; [exact Hm|].
  apply filter_fst_unique.
  - apply NoDup_fst_map_to_list.
  - apply elem_of_map_to_list. exact Hm.
Qed.

End DecoderProperties.

Lemma convert_partial_decode_witness :
  is_Some (convertHeartbeatStatuses samplePairs !! "0xdef").
Proof.
  refine (proj1 (proj2 (proj2 (proj2 (convert_partial_decode samplePairs))))
            "0xdef" (statusObject 5 (JNumber 0)) (status 5 (Some 0%float)) _ eq_refl).
  do 4 apply list_elem_of_further. apply list_elem_of_here.
Defined.

Lemma convert_last_pair_wins_witness :
  convertHeartbeatStatuses samplePairs !! "0xabc" = Some (status 41 None).
Proof.
  refine (proj1 (convert_last_pair_wins
            [ [JString "0xabc"; statusObject 10 (JNumber 0.01)];
              [JString "0xdef"; statusObject 10 JNull; JNull];
              [JNumber 7; statusObject 10 JNull] ]
            [ [JString "0xdef"; statusObject 5 (JNumber 0)];
              [JString "0xabc"; JString "down"] ]
            "0xabc" (statusObject 41 JNull) (status 41 None) eq_refl _)).
  intros v' Hin. apply list_elem_of_In in Hin.
  destruct Hin as [Heq | [Heq | []]]; [discriminate Heq|].
  injection Heq as <-. reflexivity.
Defined.

(** An element of [heartbeat_statuses] that is no array is not a pair the loop
    can skip: [json.Unmarshal] into [aux] fails on it, and with it the whole
    [UnmarshalJSON]. *)
Example non_array_element_fails :
  UnmarshalJSON zeroValidatorData
    (JObject [("heartbeat_statuses",
               JArray [JArray [JString "0xabc"; statusObject 10 JNull]; JNumber 7])])
  = Err.
Proof. reflexivity. Qed.


(** *** [last_ack_duration] *)

Section LastAckDuration.

Implicit Types (members : list (string * json)) (hs : HeartbeatStatus).

(** Once an error is saved it stays. *)
Lemma fold_storeStatusMember_failed members hs :
  snd (fold_left storeStatusMember members (hs, true)) = true.
Proof.
  revert hs. induction members as [|kv members IH]; intros hs; simpl; [reflexivity|].
  destruct (lookupField hsFields (fst kv)) as [[]|]; try apply IH;
    destruct (snd kv); apply IH.
Qed.

(** Members stored to other fields, or to none, leave the pointer alone. *)
Lemma fold_storeStatusMember_other members hs (failed : bool) :
  (forall kv, kv ∈ members -> ~ storesLastAck kv) ->
  LastAckDuration (fst (fold_left storeStatusMember members (hs, failed)))
  = LastAckDuration hs.
Proof.
  revert hs failed. induction members as [|kv members IH]; intros hs failed Hother;
    simpl; [reflexivity|].
  assert (Hkv : ~ storesLastAck kv) by (apply Hother; apply list_elem_of_here).
  assert (Hrest : forall kv', kv' ∈ members -> ~ storesLastAck kv')
    by (intros kv' Hin; apply Hother; apply list_elem_of_further; exact Hin).
  unfold storesLastAck in Hkv.
  destruct (lookupField hsFields (fst kv)) as [[]|]; [| contradiction |].
  - destruct (snd kv); rewrite (IH _ _ Hrest); reflexivity.
  - apply (IH _ _ Hrest).
Qed.

(** What the last member stored to [last_ack_duration] leaves behind. *)
Lemma unmarshal_last_ack_member (before after : list (string * json)) (key : string)
    (value : json) hs :
  storesLastAck (key, value) ->
  (forall kv, kv ∈ after -> ~ storesLastAck kv) ->
  unmarshalHeartbeatStatus (JObject (before ++ (key, value) :: after)) = Some hs ->
  match value with
  | JNull => LastAckDuration hs = None
  | JNumber f => LastAckDuration hs = Some f
  | _ => False
  end.
Proof.
  intros Hkey Hafter. unfold unmarshalHeartbeatStatus.
  rewrite fold_left_app. cbn [fold_left].
  destruct (fold_left storeStatusMember before (zeroHeartbeatStatus, false)) as [hs0 failed0].
  unfold storeStatusMember at 2. unfold storesLastAck in Hkey. cbn [fst snd] in *.
  rewrite Hkey.
  destruct value.
  - pose proof (fold_storeStatusMember_other after
      {| SinceLastSuccess := SinceLastSuccess hs0; LastAckDuration := None |} failed0 Hafter) as Hl.
    destruct (fold_left storeStatusMember after _) as [hs1 failed1].
    destruct failed1; [discriminate|]. intros [= <-]. exact Hl.
  - pose proof (fold_storeStatusMember_failed after hs0) as Hf.
    destruct (fold_left storeStatusMember after _) as [hs1 failed1].
    simpl in Hf. subst failed1. discriminate.
  - pose proof (fold_storeStatusMember_other after
      {| SinceLastSuccess := SinceLastSuccess hs0; LastAckDuration := Some f |} failed0 Hafter) as Hl.
    destruct (fold_left storeStatusMember after _) as [hs1 failed1].
    destruct failed1; [discriminate|]. intros [= <-]. exact Hl.
  - pose proof (fold_storeStatusMember_failed after hs0) as Hf.
    destruct (fold_left storeStatusMember after _) as [hs1 failed1].
    simpl in Hf. subst failed1. discriminate.
  - pose proof (fold_storeStatusMember_failed after hs0) as Hf.
    destruct (fold_left storeStatusMember after _) as [hs1 failed1].
    simpl in Hf. subst failed1. discriminate.
  - pose proof (fold_storeStatusMember_failed after hs0) as Hf.
    destruct (fold_left storeStatusMember after _) as [hs1 failed1].
    simpl in Hf. subst failed1. discriminate.
Qed.

End LastAckDuration.

(** *** Objects as [json.Marshal] writes them *)

Section MarshaledObjects.

Implicit Types (m members : list (string * json)) (k key : string) (v : json).

Lemma string_compare_lt (a b : string) : String.compare a b = Lt <-> String.ltb a b = true.
Proof. unfold String.ltb. destruct (String.compare a b); split; congruence. Qed.

Lemma string_compare_gt (a b : string) : String.compare a b = Gt -> String.ltb b a = true.
Proof.
  intros H. unfold String.ltb. rewrite String.compare_antisym, H. reflexivity.
Qed.

Lemma toInterface_object members :
  toInterface (JObject members) = JObject (marshaledMembers members).
Proof. reflexivity. Qed.

Lemma objInsert_elem k v m (x : string * json) :
  x ∈ objInsert k v m -> x = (k, v) \/ x ∈ m.
Proof.
  induction m as [|[k' v'] m IH]; cbn [objInsert]; intros Hin.
  - apply elem_of_cons in Hin. destruct Hin as [Hin | Hin]; [left; exact Hin|].
    apply elem_of_nil in Hin. contradiction.
  - destruct (String.compare k k').
    + apply elem_of_cons in Hin. destruct Hin as [Hin | Hin]; [left; exact Hin|].
      right. apply list_elem_of_further, Hin.
    + apply elem_of_cons in Hin. destruct Hin as [Hin | Hin]; [left; exact Hin|].
      right. exact Hin.
    + apply elem_of_cons in Hin. destruct Hin as [Hin | Hin].
      * right. rewrite Hin. apply list_elem_of_here.
      * destruct (IH Hin) as [Heq | Hm]; [left; exact Heq|].
        right. apply list_elem_of_further, Hm.
Qed.

Lemma objInsert_sorted k v m :
  StronglySorted keyBefore m -> StronglySorted keyBefore (objInsert k v m).
Proof.
  induction m as [|[k' v'] m IH]; cbn [objInsert]; intros Hsorted.
  - repeat constructor.
  - apply StronglySorted_inv in Hsorted as [Hsorted Hall].
    destruct (String.compare k k') eqn:Hcmp.
    + apply String.compare_eq_iff in Hcmp. subst k'.
      constructor; [exact Hsorted | exact Hall].
    + apply string_compare_lt in Hcmp.
      constructor; [constructor; assumption|].
      constructor; [exact Hcmp|].
      eapply Forall_impl; [exact Hall|].
      intros x Hx. unfold keyBefore in *. cbn [fst] in *.
      eapply string_ltb_trans; eassumption.
    + apply string_compare_gt in Hcmp.
      constructor; [apply IH, Hsorted|].
      apply List.Forall_forall. intros x Hx. rewrite <- list_elem_of_In in Hx.
      destruct (objInsert_elem _ _ _ _ Hx) as [-> | Hm].
      * exact Hcmp.
      * rewrite List.Forall_forall in Hall. apply Hall. rewrite <- list_elem_of_In. exact Hm.
Qed.

Lemma memberOf_cons k k' v' m :
  memberOf k ((k', v') :: m) = if String.eqb k' k then Some v' else memberOf k m.
Proof. unfold memberOf. cbn [List.find fst]. destruct (String.eqb k' k); reflexivity. Qed.

Lemma memberOf_elem k v m : memberOf k m = Some v -> (k, v) ∈ m.
Proof.
  unfold memberOf. destruct (List.find _ m) as [[k' v']|] eqn:Hfind; [|discriminate].
  intros [= <-]. apply find_some in Hfind as [Hin Heq]. cbn [fst] in Heq.
  apply String.eqb_eq in Heq. subst k'. apply list_elem_of_In. exact Hin.
Qed.

Lemma objInsert_memberOf k v m k0 :
  memberOf k0 (objInsert k v m) = if String.eqb k k0 then Some v else memberOf k0 m.
Proof.
  induction m as [|[k' v'] m IH]; cbn [objInsert].
  - rewrite memberOf_cons. reflexivity.
  - destruct (String.compare k k') eqn:Hcmp.
    + apply String.compare_eq_iff in Hcmp. subst k'.
      rewrite !memberOf_cons. destruct (String.eqb k k0); reflexivity.
    + rewrite memberOf_cons. reflexivity.
    + rewrite !memberOf_cons, IH.
      destruct (String.eqb k' k0) eqn:Hk'; [|reflexivity].
      apply String.eqb_eq in Hk'. subst k0.
      destruct (String.eqb k k') eqn:Hk; [|reflexivity].
      apply String.eqb_eq in Hk. subst k'.
      apply string_compare_gt in Hcmp. rewrite string_ltb_irrefl in Hcmp. discriminate.
Qed.

Lemma marshaledMembers_fold members : marshaledMembers members = fold_left insertMember members [].
Proof. reflexivity. Qed.

Lemma fold_insertMember_sorted members m :
  StronglySorted keyBefore m -> StronglySorted keyBefore (fold_left insertMember members m).
Proof.
  revert m. induction members as [|kv members IH]; intros m Hm; cbn [fold_left]; [exact Hm|].
  apply IH. apply objInsert_sorted, Hm.
Qed.

(** Every member written comes from a member of the source with the same key. *)
Lemma fold_insertMember_elem members m (x : string * json) :
  x ∈ fold_left insertMember members m ->
  x ∈ m \/ exists v0, (fst x, v0) ∈ members /\ snd x = toInterface v0.
Proof.
  revert m. induction members as [|[k v] members IH]; intros m Hin; cbn [fold_left] in Hin;
    [left; exact Hin|].
  destruct (IH _ Hin) as [Hm | [v0 [Hv0 Hx]]].
  - destruct (objInsert_elem _ _ _ _ Hm) as [-> | Hm']; [|left; exact Hm'].
    right. exists v. split; [apply list_elem_of_here | reflexivity].
  - right. exists v0. split; [apply list_elem_of_further, Hv0 | exact Hx].
Qed.

Lemma fold_insertMember_memberOf_skip members m k :
  (forall kv, kv ∈ members -> fst kv <> k) ->
  memberOf k (fold_left insertMember members m) = memberOf k m.
Proof.
  revert m. induction members as [|[k' v'] members IH]; intros m Hskip; cbn [fold_left];
    [reflexivity|].
  rewrite IH by (intros kv Hkv; apply Hskip, list_elem_of_further, Hkv).
  unfold insertMember. cbn [fst snd]. rewrite objInsert_memberOf.
  destruct (String.eqb k' k) eqn:Hk; [|reflexivity].
  apply String.eqb_eq in Hk. destruct (Hskip (k', v') (list_elem_of_here _ _)). exact Hk.
Qed.

(** The last occurrence of a key in the source is the one that is written. *)
Lemma marshaledMembers_last (before after : list (string * json)) key value :
  (forall kv, kv ∈ after -> fst kv <> key) ->
  (key, toInterface value) ∈ marshaledMembers (before ++ (key, value) :: after).
Proof.
  intros Hafter. apply memberOf_elem.
  rewrite marshaledMembers_fold, fold_left_app. cbn [fold_left].
  rewrite (fold_insertMember_memberOf_skip after _ key Hafter).
  unfold insertMember. cbn [fst snd]. rewrite objInsert_memberOf, String.eqb_refl.
  reflexivity.
Qed.

(** Inserting a key greater than all the keys present appends it. *)
Lemma objInsert_snoc k v m :
  Forall (fun kv => String.ltb (fst kv) k = true) m -> objInsert k v m = (m ++ [(k, v)])%list.
Proof.
  induction m as [|[k' v'] m IH]; intros Hall; cbn [objInsert]; [reflexivity|].
  apply Forall_cons in Hall as [Hk' Hall]. cbn [fst] in Hk'.
  assert (Hcmp : String.compare k k' = Gt).
  { rewrite String.compare_antisym. apply string_compare_lt in Hk'. rewrite Hk'. reflexivity. }
  rewrite Hcmp, (IH Hall). reflexivity.
Qed.

(** Members in increasing key order, stored one by one, give back the list. *)
Lemma fold_objInsert_sorted (members acc : list (string * json)) :
  StronglySorted keyBefore (acc ++ members) ->
  fold_left (fun m kv => objInsert (fst kv) (snd kv) m) members acc = (acc ++ members)%list.
Proof.
  revert acc. induction members as [|[k v] members IH]; intros acc Hsorted; cbn [fold_left].
  - rewrite app_nil_r. reflexivity.
  - cbn [fst snd]. rewrite objInsert_snoc.
    + rewrite IH; rewrite <- app_assoc; [reflexivity | exact Hsorted].
    + apply List.Forall_forall. intros x Hx. rewrite <- list_elem_of_In in Hx.
      apply (StronglySorted_app_1_elem_of keyBefore acc ((k, v) :: members) x (k, v));
        [exact Hsorted | exact Hx | apply list_elem_of_here].
Qed.

Lemma fold_left_ext_elem {A B : Type} (f g : A -> B -> A) (l : list B) (a : A) :
  (forall acc x, x ∈ l -> f acc x = g acc x) -> fold_left f l a = fold_left g l a.
Proof.
  revert a. induction l as [|x l IH]; intros a Hext; cbn [fold_left]; [reflexivity|].
  rewrite (Hext a x (list_elem_of_here _ _)).
  apply IH. intros acc y Hy. apply Hext, list_elem_of_further, Hy.
Qed.

Lemma jsize_elem (x : json) (elems : list json) :
  x ∈ elems -> jsize x <= list_sum (List.map jsize elems).
Proof.
  induction elems as [|y elems IH]; intros Hin; [apply elem_of_nil in Hin; contradiction|].
  apply elem_of_cons in Hin.
  change (list_sum (List.map ?f (y :: ?l))) with (f y + list_sum (List.map f l))%nat.
  destruct Hin as [-> | Hin]; [apply Nat.le_add_r|].
  etransitivity; [apply IH, Hin | rewrite Nat.add_comm; apply Nat.le_add_r].
Qed.

Lemma jsize_member (kv : string * json) members :
  kv ∈ members -> jsize (snd kv) <= list_sum (List.map (fun kv => jsize (snd kv)) members).
Proof.
  induction members as [|y members IH]; intros Hin; [apply elem_of_nil in Hin; contradiction|].
  apply elem_of_cons in Hin.
  change (list_sum (List.map ?f (y :: ?l))) with (f y + list_sum (List.map f l))%nat.
  destruct Hin as [-> | Hin]; [apply Nat.le_add_r|].
  etransitivity; [apply IH, Hin | rewrite Nat.add_comm; apply Nat.le_add_r].
Qed.

Lemma toInterface_idempotent_bounded (n : nat) (j : json) :
  jsize j <= n -> toInterface (toInterface j) = toInterface j.
Proof.
  revert j. induction n as [|n IH]; intros j Hsize.
  - destruct j; cbn [jsize] in Hsize; lia.
  - destruct j as [| | | |elems|members]; try reflexivity.
    + cbn [toInterface]. f_equal. rewrite List.map_map. apply List.map_ext_in.
      intros x Hx. apply IH. cbn [jsize] in Hsize.
      pose proof (jsize_elem x elems (proj2 (list_elem_of_In _ _) Hx)). lia.
    + rewrite !toInterface_object. f_equal.
      assert (Hsorted : StronglySorted keyBefore (marshaledMembers members))
        by (apply fold_insertMember_sorted; constructor).
      unfold marshaledMembers at 1.
      rewrite (fold_left_ext_elem _ (fun m kv => objInsert (fst kv) (snd kv) m)).
      * apply (fold_objInsert_sorted (marshaledMembers members) []). exact Hsorted.
      * intros acc x Hx. f_equal.
        destruct (fold_insertMember_elem members [] x Hx) as [Hnil | [v0 [Hv0 ->]]];
          [apply elem_of_nil in Hnil; contradiction|].
        apply IH. cbn [jsize] in Hsize.
        pose proof (jsize_member (fst x, v0) members Hv0) as Hle. cbn [snd] in Hle. lia.
Qed.

(** The two passes through [interface{}], at lines 152 and 81, do to a value
    what one pass does. *)
Lemma toInterface_idempotent (j : json) : toInterface (toInterface j) = toInterface j.
Proof. apply (toInterface_idempotent_bounded (jsize j)). lia. Qed.

Lemma toInterface_null_or_number (value : json) :
  match toInterface value with
  | JNull => value = JNull
  | JNumber f => value = JNumber f
  | _ => True
  end.
Proof. destruct value; cbn [toInterface]; auto. Qed.

End MarshaledObjects.

Section LastAckDurationOfSource.

(** C6, as the code has it.  The status object of the log line reaches line 103
    through Go maps, which keep the last of two members with one key, and
    through [json.Marshal], which writes the keys in byte order; two such
    passes do what one does.  [encoding/json] then stores a member to the field
    whose tag equals its key, exactly or up to letter case, in the order
    written.  So when no key of the source object matches [last_ack_duration]
    the decoded field is absent; otherwise the matching key that is greatest in
    byte order decides, by its last occurrence in the source: [null] gives
    absent, a number gives exactly that number.  The plain objects decode
    without an error, and a present zero differs from absent. *)
Theorem last_ack_duration_of_source_object :
  (forall j, toInterface (toInterface j) = toInterface j)
  /\ (forall members hs,
        (forall kv, kv ∈ members -> lookupField hsFields (fst kv) <> Some FLastAckDuration) ->
        unmarshalHeartbeatStatus (toInterface (JObject members)) = Some hs ->
        LastAckDuration hs = None)
  /\ (forall before after key value hs,
        lookupField hsFields key = Some FLastAckDuration ->
        (forall kv, kv ∈ (before ++ after)%list ->
           lookupField hsFields (fst kv) = Some FLastAckDuration ->
           String.leb (fst kv) key = true) ->
        (forall kv, kv ∈ after -> fst kv <> key) ->
        unmarshalHeartbeatStatus (toInterface (JObject (before ++ (key, value) :: after)))
        = Some hs ->
        match value with
        | JNull => LastAckDuration hs = None
        | JNumber f => LastAckDuration hs = Some f
        | _ => False
        end)
  /\ (forall since,
        unmarshalHeartbeatStatus
          (toInterface (JObject [("since_last_success", JNumber since)]))
        = Some {| SinceLastSuccess := since; LastAckDuration := None |})
  /\ (forall since,
        unmarshalHeartbeatStatus
          (toInterface (JObject [("since_last_success", JNumber since);
                                 ("last_ack_duration", JNull)]))
        = Some {| SinceLastSuccess := since; LastAckDuration := None |})
  /\ (forall since d,
        unmarshalHeartbeatStatus
          (toInterface (JObject [("since_last_success", JNumber since);
                                 ("last_ack_duration", JNumber d)]))
        = Some {| SinceLastSuccess := since; LastAckDuration := Some d |})
  /\ (forall since,
        unmarshalHeartbeatStatus
          (toInterface (JObject [("since_last_success", JNumber since);
                                 ("last_ack_duration", JNumber 0)]))
        <> unmarshalHeartbeatStatus
             (toInterface (JObject [("since_last_success", JNumber since)]))).
Proof.
  split; [exact toInterface_idempotent|].
  split; [|split; [|split; [|split; [|split]]]].
  - intros members hs Hother. rewrite toInterface_object. unfold unmarshalHeartbeatStatus.
    assert (Hnone : forall kv, kv ∈ marshaledMembers members -> ~ storesLastAck kv).
    { intros kv Hkv.
      destruct (fold_insertMember_elem members [] kv Hkv) as [Hnil | [v0 [Hv0 _]]];
        [apply elem_of_nil in Hnil; contradiction|].
      apply (Hother (fst kv, v0) Hv0). }
    pose proof (fold_storeStatusMember_other (marshaledMembers members) zeroHeartbeatStatus
                  false Hnone) as Hl.
    destruct (fold_left storeStatusMember (marshaledMembers members) _) as [hs1 failed1].
    destruct failed1; [discriminate|]. intros [= <-]. exact Hl.
  - intros before after key value hs Hkey Hgreatest Hafter. rewrite toInterface_object.
    pose proof (marshaledMembers_last before after key value Hafter) as Hin.
    assert (Hsorted :
      StronglySorted keyBefore (marshaledMembers (before ++ (key, value) :: after)))
      by (apply fold_insertMember_sorted; constructor).
    apply list_elem_of_split in Hin as [written1 [written2 Hsplit]].
    rewrite Hsplit in Hsorted |- *. intros Hdecode.
    assert (Hlater : forall kv, kv ∈ written2 -> ~ storesLastAck kv).
    { intros kv Hkv Hstores.
      assert (Hlt : String.ltb key (fst kv) = true).
      { apply (StronglySorted_app_1_elem_of keyBefore (written1 ++ [(key, toInterface value)])
                 written2 (key, toInterface value) kv).
        - rewrite <- app_assoc. exact Hsorted.
        - apply elem_of_app. right. apply list_elem_of_here.
        - exact Hkv. }
      assert (Hsource : kv ∈ marshaledMembers (before ++ (key, value) :: after)).
      { rewrite Hsplit. apply elem_of_app. right. apply list_elem_of_further, Hkv. }
      destruct (fold_insertMember_elem _ [] kv Hsource) as [Hnil | [v0 [Hv0 _]]];
        [apply elem_of_nil in Hnil; contradiction|].
      apply elem_of_app in Hv0. destruct Hv0 as [Hv0 | Hv0].
      - assert (Hle : String.leb (fst kv) key = true).
        { apply (Hgreatest (fst kv, v0)); [apply elem_of_app; left; exact Hv0 | exact Hstores]. }
        rewrite string_ltb_leb, Hle in Hlt. discriminate.
      - apply elem_of_cons in Hv0. destruct Hv0 as [Heq | Hv0].
        + injection Heq as Hk _. rewrite Hk, string_ltb_irrefl in Hlt. discriminate.
        + assert (Hle : String.leb (fst kv) key = true).
          { apply (Hgreatest (fst kv, v0)); [apply elem_of_app; right; exact Hv0 | exact Hstores]. }
          rewrite string_ltb_leb, Hle in Hlt. discriminate. }
    pose proof (unmarshal_last_ack_member written1 written2 key (toInterface value) hs
                  Hkey Hlater Hdecode) as Hresult.
    pose proof (toInterface_null_or_number value) as Hvalue.
    destruct (toInterface value) eqn:Hto; try contradiction.
    + rewrite Hvalue. exact Hresult.
    + rewrite Hvalue. exact Hresult.
  - reflexivity.
  - reflexivity.
  - reflexivity.
  - intros since. discriminate.
Qed.

End LastAckDurationOfSource.

Lemma last_ack_duration_of_source_object_witness :
  LastAckDuration (status 1 (Some 0.5%float)) = Some 0.5%float.
Proof.
  refine (proj1 (proj2 (proj2 last_ack_duration_of_source_object))
            [] [("LAST_ACK_DURATION", JNull); ("since_last_success", JNumber 1)]
            "last_ack_duration" (JNumber 0.5) (status 1 (Some 0.5%float)) eq_refl _ _ eq_refl).
  - intros kv Hin Hstores. apply list_elem_of_In in Hin.
    destruct Hin as [<- | [<- | []]]; [reflexivity | discriminate Hstores].
  - intros kv Hin. apply list_elem_of_In in Hin.
    destruct Hin as [<- | [<- | []]]; discriminate.
Defined.

(** C6, as stated, fails: this object, as [json.Marshal] writes it, has no key
    [last_ack_duration], and the decoded field is present. *)
Lemma upper_case_key_is_stored :
  toInterface (JObject upperCaseMembers) = JObject upperCaseMembers
  /\ ~ In "last_ack_duration" (List.map fst upperCaseMembers)
  /\ unmarshalHeartbeatStatus (JObject upperCaseMembers) = Some (status 1 (Some 0.5%float)).
Proof.
  split; [reflexivity | split; [|reflexivity]].
  intros [H | [H | []]]; discriminate H.
Qed.


(** ** The poll cycle *)

Section PollProperties.

Variable fmtFloat64 : float -> string.

(** The last value read: [lastRawEntry] after the loop over [lines]. *)
Lemma readEntries_values (lines : list json) (lastRawEntry : option json) (k : nat) :
  readEntries (k + S (length lines)) {| input := List.map Value lines; err := None |}
    lastRawEntry
  = Some ([], fold_left (fun _ raw => Some raw) lines lastRawEntry).
Proof.
  revert lastRawEntry. induction lines as [|raw lines IH]; intros lastRawEntry.
  - rewrite Nat.add_succ_r. reflexivity.
  - cbn [length List.map fold_left]. rewrite Nat.add_succ_r.
    cbn [readEntries Decoder_Decode err input]. apply IH.
Qed.

(** A decoder that has met bytes that are no JSON returns the same error from
    every call, and the loop of lines 135 to 145 never reaches its [break]. *)
Lemma readEntries_after_error (fuel : nat) (rest : list chunk) (lastRawEntry : option json) :
  readEntries fuel {| input := rest; err := Some SyntaxError |} lastRawEntry = None.
Proof.
  induction fuel as [|fuel IH]; [reflexivity|].
  cbn [readEntries Decoder_Decode err]. rewrite IH. reflexivity.
Qed.

Lemma readEntries_garbage (fuel : nat) (file : list chunk) (lastRawEntry : option json) :
  Garbage ∈ file -> readEntries fuel (NewDecoder file) lastRawEntry = None.
Proof.
  unfold NewDecoder. revert file lastRawEntry.
  induction fuel as [|fuel IH]; intros file lastRawEntry Hin; [reflexivity|].
  destruct file as [|[raw|] rest].
  - apply elem_of_nil in Hin. contradiction.
  - cbn [readEntries Decoder_Decode err input]. apply IH.
    apply elem_of_cons in Hin as [Heq | Hin]; [discriminate | exact Hin].
  - cbn [readEntries Decoder_Decode err input]. rewrite readEntries_after_error. reflexivity.
Qed.

Lemma fold_last_value (lines : list json) (raw : json) (start : option json) :
  fold_left (fun _ r => Some r) (lines ++ [raw]) start = Some raw.
Proof. rewrite fold_left_app. reflexivity. Qed.

Lemma pollCycle_values (config : Config) (ptr : N) (lines : list json) (raw : json)
    (k : nat) :
  pollCycle fmtFloat64 (k + S (S (length lines))) config ptr
    (Some (List.map Value (lines ++ [raw])))
  = Some (fl <- evaluateLast fmtFloat64 config ptr raw ;; closeAndSleep config fl).
Proof.
  unfold pollCycle, NewDecoder.
  replace (S (S (length lines))) with (S (length (lines ++ [raw])))
    by (rewrite length_app; simpl; lia).
  rewrite readEntries_values, fold_last_value.
  unfold bind at 1. destruct (bind _ _). reflexivity.
Qed.

Lemma toInterface_string (j : json) (s : string) : toInterface j = JString s -> j = JString s.
Proof. destruct j; simpl; intros H; try discriminate; exact H. Qed.

(** A line of the wrong outer shape: the error is logged and nothing else
    happens. *)
Lemma evaluateLast_bad_shape (config : Config) (ptr : N) (raw : json) :
  (forall a b, raw <> JArray [a; b])
  \/ (exists a b, raw = JArray [a; b] /\ forall s, a <> JString s) ->
  exists line fl,
    evaluateLast fmtFloat64 config ptr raw = ([Printf (LogRawContent raw); Printf line], Some fl)
    /\ (line = LogNotArray /\ fl = FallThrough
        \/ exists first, line = LogBadTimestamp first /\ fl = Continue).
Proof.
  intros [Hshape | [a [b [-> Hfirst]]]].
  - exists LogNotArray, FallThrough. split; [|left; split; reflexivity].
    unfold evaluateLast, unmarshalLogArray.
    destruct raw as [| | | |elems|]; try reflexivity.
    destruct elems as [|a [|b [|c rest]]]; try reflexivity.
    destruct (Hshape a b). reflexivity.
  - exists (LogBadTimestamp (toInterface a)), Continue.
    split; [|right; eexists; split; reflexivity].
    unfold evaluateLast, unmarshalLogArray. cbn [List.map].
    destruct (toInterface a) eqn:Ha; try reflexivity.
    destruct (Hfirst s). apply toInterface_string. exact Ha.
Qed.

(** C5.  A last line that is no two-element array, or whose first element is no
    string, is not decoded: [processLogEntry] is not reached (no [Timestamp]
    line, no alert), and the failure is written to the log, for the line alone
    and for a whole cycle that ends with it. *)
Theorem bad_outer_shape_is_logged (config : Config) (ptr : N) (raw : json) :
  (forall a b, raw <> JArray [a; b])
  \/ (exists a b, raw = JArray [a; b] /\ forall s, a <> JString s) ->
  (exists line fl,
      evaluateLast fmtFloat64 config ptr raw
      = ([Printf (LogRawContent raw); Printf line], Some fl)
      /\ (line = LogNotArray \/ exists first, line = LogBadTimestamp first))
  /\ alerted (evaluateLast fmtFloat64 config ptr raw) = false
  /\ (forall lines k,
        exists run,
          pollCycle fmtFloat64 (k + S (S (length lines))) config ptr
            (Some (List.map Value (lines ++ [raw]))) = Some run
          /\ alerted run = false
          /\ (Printf LogNotArray ∈ fst run
              \/ exists first, Printf (LogBadTimestamp first) ∈ fst run)).
Proof.
  intros Hshape.
  destruct (evaluateLast_bad_shape config ptr raw Hshape) as [line [fl [Heval Hline]]].
  split; [|split].
  - exists line, fl. split; [exact Heval|].
    destruct Hline as [[-> _] | [first [-> _]]]; [left; reflexivity | right; eexists; reflexivity].
  - rewrite Heval. destruct Hline as [[-> _] | [first [-> _]]]; reflexivity.
  - intros lines k. rewrite pollCycle_values, Heval.
    destruct Hline as [[-> ->] | [first [-> ->]]]; eexists; (split; [reflexivity|]);
      (split; [reflexivity|]); cbn.
    + left. apply list_elem_of_further, list_elem_of_here.
    + right. exists first. apply list_elem_of_further, list_elem_of_here.
Qed.

(** C2, as the code has it.  When every line of the file is JSON, the cycle
    evaluates the last line and only it, whatever the lines before it are; it is
    decoded only when it is a two-element array, so a last line of another shape
    takes the place of an array-shaped line before it: the cycle logs the error
    and sends no alert. *)
Theorem pollCycle_evaluates_last_value (config : Config) (ptr : N) (lines : list json)
    (raw : json) (k : nat) :
  let run := pollCycle fmtFloat64 (k + S (S (length lines))) config ptr
               (Some (List.map Value (lines ++ [raw]))) in
  run = Some (fl <- evaluateLast fmtFloat64 config ptr raw ;; closeAndSleep config fl)
  /\ ((forall a b, raw <> JArray [a; b]) ->
      run = Some ([Printf (LogRawContent raw); Printf LogNotArray; Close;
                   Sleep (CheckInterval config)], Some FallThrough)).
Proof.
  intros run. subst run. rewrite pollCycle_values. split; [reflexivity|].
  intros Hshape.
  destruct (evaluateLast_bad_shape config ptr raw (or_introl Hshape))
    as [line [fl [Heval [[-> ->] | [first [-> ->]]]]]].
  - rewrite Heval. reflexivity.
  - exfalso. revert Heval. unfold evaluateLast, unmarshalLogArray.
    destruct raw as [| | | |elems|]; try discriminate.
    destruct elems as [|a [|b [|c rest]]]; try discriminate.
    destruct (Hshape a b). reflexivity.
Qed.

End PollProperties.

Lemma bad_outer_shape_is_logged_witness :
  alerted (evaluateLast fmtSample config0 0 lineObject) = false.
Proof.
  refine (proj1 (proj2 (bad_outer_shape_is_logged fmtSample config0 0 lineObject _))).
  left. intros a b. discriminate.
Defined.

Lemma pollCycle_evaluates_last_value_witness :
  pollCycle fmtSample 3 config0 0 (Some [Value lineAlert; Value lineObject])
  = Some ([Printf (LogRawContent lineObject); Printf LogNotArray; Close; Sleep 5],
          Some FallThrough).
Proof.
  refine (proj2 (pollCycle_evaluates_last_value fmtSample config0 0 [lineAlert] lineObject 0) _).
  intros a b. discriminate.
Defined.

(** C2, as stated, fails: the last two-element array of this file is
    [lineAlert], whose record alerts, and the cycle over the file evaluates
    nothing, because the object after it is the last value read. *)
Lemma trailing_object_displaces_array_line :
  spec_lastArrayLine [lineAlert; lineObject] = Some lineAlert
  /\ alerted (evaluateLast fmtSample config0 0 lineAlert) = true
  /\ exists run,
       pollCycle fmtSample 3 config0 0 (Some [Value lineAlert; Value lineObject]) = Some run
       /\ alerted run = false.
Proof.
  split; [reflexivity | split; [vm_compute; reflexivity|]].
  eexists. split; [reflexivity | reflexivity].
Qed.

(** [null] for the validator object sets [aux] to nil, and line 87 panics. *)
Example null_validator_data_panics :
  UnmarshalJSON zeroValidatorData JNull = Panic
  /\ panicked (evaluateLast fmtSample config0 0
                 (JArray [JString "2024-01-02T00:00:00"; JNull])) = true.
Proof. split; reflexivity. Qed.


(** ** The latest-file locator *)

Section LatestDir.

(** The loop of lines 236 to 241 ends on an element that no other exceeds. *)
Lemma latestOf_spec (dirs : list string) (first : string) :
  (latestOf dirs first = first \/ latestOf dirs first ∈ dirs)
  /\ String.leb first (latestOf dirs first) = true
  /\ forall d, d ∈ dirs -> String.leb d (latestOf dirs first) = true.
Proof.
  unfold latestOf. revert first.
  induction dirs as [|dir dirs IH]; intros first; cbn [fold_left].
  - split; [left; reflexivity | split; [apply string_leb_refl|]].
    intros d Hd. apply elem_of_nil in Hd. contradiction.
  - destruct (IH (if String.ltb first dir then dir else first)) as [Hin [Hle Hall]].
    destruct (String.ltb first dir) eqn:Hlt.
    + split; [|split].
      * right. destruct Hin as [Heq | Hin];
          [rewrite Heq; apply list_elem_of_here | apply list_elem_of_further; exact Hin].
      * eapply string_leb_trans; [apply string_ltb_leb_incl; exact Hlt | exact Hle].
      * intros d Hd. apply elem_of_cons in Hd.
        destruct Hd as [Heq | Hd]; [rewrite Heq; exact Hle | apply Hall; exact Hd].
    + split; [|split].
      * destruct Hin as [Heq | Hin];
          [left; exact Heq | right; apply list_elem_of_further; exact Hin].
      * exact Hle.
      * intros d Hd. apply elem_of_cons in Hd.
        destruct Hd as [Heq | Hd]; [rewrite Heq | apply Hall; exact Hd].
        eapply string_leb_trans; [apply string_ltb_false_leb; exact Hlt | exact Hle].
Qed.

Lemma Sprintf_s_path (dir name : string) : Sprintf_s "%s/%s" [dir; name] = dir ++ "/" ++ name.
Proof. unfold Sprintf_s. cbn. rewrite string_app_nil_r. reflexivity. Qed.

(** C8.  Among the subdirectories of the base path [findLatestDir] returns the
    one whose name is the lexicographic maximum, by bytes; with no
    subdirectory it fails with the no-directories error.  Of the three dated
    names it returns [2024-01-02], and of [9] and [10] it returns [9]: the order
    is not numeric. *)
Theorem findLatestDir_lexicographic_maximum (ReadDir : FileSystem) (basePath : string)
    (entries : list DirEntry) :
  ReadDir basePath = inr entries ->
  let dirs := List.map Name (List.filter IsDir entries) in
  (dirs = [] ->
     findLatestDir ReadDir basePath = Failed ("no directories found in " ++ basePath))
  /\ (dirs <> [] ->
      exists latestDir,
        latestDir ∈ dirs
        /\ (forall d, d ∈ dirs -> String.leb d latestDir = true)
        /\ findLatestDir ReadDir basePath = Located (basePath ++ "/" ++ latestDir))
  /\ (dirs ≡ₚ ["2024-01-01"; "2024-01-02"; "2023-12-31"] ->
      findLatestDir ReadDir basePath = Located (basePath ++ "/2024-01-02"))
  /\ (dirs ≡ₚ ["9"; "10"] ->
      findLatestDir ReadDir basePath = Located (basePath ++ "/9")).
Proof.
  intros Hread dirs.
  assert (Hmax : dirs <> [] ->
    exists latestDir,
      latestDir ∈ dirs
      /\ (forall d, d ∈ dirs -> String.leb d latestDir = true)
      /\ findLatestDir ReadDir basePath = Located (basePath ++ "/" ++ latestDir)).
  { intros Hne. unfold findLatestDir. rewrite Hread. fold dirs.
    destruct dirs as [|first rest] eqn:Hdirs; [contradiction|].
    destruct (latestOf_spec (first :: rest) first) as [Hin [_ Hall]].
    exists (latestOf (first :: rest) first). split; [|split].
    - destruct Hin as [Heq | Hin]; [rewrite Heq; apply list_elem_of_here | exact Hin].
    - exact Hall.
    - rewrite Sprintf_s_path. reflexivity. }
  split; [|split; [exact Hmax | split]].
  - intros Hnil. unfold findLatestDir. rewrite Hread. fold dirs. rewrite Hnil.
    unfold Sprintf_s. cbn. rewrite string_app_nil_r. reflexivity.
  - intros Hperm.
    destruct Hmax as [latestDir [Hin [Hall ->]]].
    { intros Hnil. rewrite Hnil in Hperm. apply Permutation_nil_l in Hperm. discriminate. }
    assert (Hone : String.leb "2024-01-02" latestDir = true).
    { apply Hall. rewrite Hperm. apply list_elem_of_further, list_elem_of_here. }
    rewrite Hperm in Hin. apply list_elem_of_In in Hin.
    destruct Hin as [<- | [<- | [<- | []]]];
      [discriminate Hone | reflexivity | discriminate Hone].
  - intros Hperm.
    destruct Hmax as [latestDir [Hin [Hall ->]]].
    { intros Hnil. rewrite Hnil in Hperm. apply Permutation_nil_l in Hperm. discriminate. }
    assert (Hone : String.leb "9" latestDir = true).
    { apply Hall. rewrite Hperm. apply list_elem_of_here. }
    rewrite Hperm in Hin. apply list_elem_of_In in Hin.
    destruct Hin as [<- | [<- | []]]; [reflexivity | discriminate Hone].
Qed.

End LatestDir.

Lemma findLatestDir_lexicographic_maximum_witness :
  findLatestDir sampleFS "/logs" = Located "/logs/2024-01-02".
Proof.
  refine (proj1 (proj2 (proj2 (findLatestDir_lexicographic_maximum sampleFS "/logs" _ eq_refl))) _).
  exact (Permutation_cons_append _ _).
Defined.

Section SortFacts.

Variable less : string -> string -> bool.

Lemma strictWeakOn_incl (xs ys : list string) :
  (forall x, x ∈ ys -> x ∈ xs) -> strictWeakOn less xs -> strictWeakOn less ys.
Proof.
  intros Hincl [Hirr [Htrans Hneg]]. split; [|split].
  - intros a Ha. apply Hirr, Hincl, Ha.
  - intros a b c Ha Hb Hc. apply Htrans; apply Hincl; assumption.
  - intros a b c Ha Hb Hc. apply Hneg; apply Hincl; assumption.
Qed.

(** In a sorted slice no element is greater than the last one. *)
Lemma sorted_last_maximal (xs : list string) (latest : string) :
  strictWeakOn less xs -> isSorted less xs -> last xs = Some latest ->
  forall x, x ∈ xs -> less latest x = false.
Proof.
  unfold isSorted. induction xs as [|a rest IH]; intros Hweak Hsorted Hlast x Hx.
  - apply elem_of_nil in Hx. contradiction.
  - apply Sorted_inv in Hsorted as [Hsorted Hhd].
    destruct rest as [|b rest'].
    + injection Hlast as <-. apply elem_of_cons in Hx.
      destruct Hx as [Heq | Hx]; [|apply elem_of_nil in Hx; contradiction].
      rewrite Heq. destruct Hweak as [Hirr _]. apply Hirr, list_elem_of_here.
    + change (last (b :: rest') = Some latest) in Hlast.
      assert (Hrest : forall y, y ∈ b :: rest' -> less latest y = false).
      { apply IH; [|exact Hsorted | exact Hlast].
        eapply strictWeakOn_incl; [|exact Hweak].
        intros y Hy. apply list_elem_of_further, Hy. }
      apply elem_of_cons in Hx. destruct Hx as [Heq | Hx]; [|apply Hrest, Hx].
      rewrite Heq. destruct Hweak as [_ [_ Hneg]].
      apply (Hneg latest b a).
      * apply list_elem_of_further. apply last_Some_elem_of. exact Hlast.
      * apply list_elem_of_further, list_elem_of_here.
      * apply list_elem_of_here.
      * apply Hrest, list_elem_of_here.
      * apply HdRel_inv in Hhd. exact Hhd.
Qed.

Lemma insertRev_perm (x : string) (revPrefix : list string) :
  insertRev less x revPrefix ≡ₚ x :: revPrefix.
Proof.
  induction revPrefix as [|y rest IH]; cbn [insertRev]; [reflexivity|].
  destruct (less x y); [|reflexivity].
  rewrite IH. apply Permutation_swap.
Qed.

Lemma fold_insertRev_perm (xs revPrefix : list string) :
  fold_left (fun acc x => insertRev less x acc) xs revPrefix ≡ₚ xs ++ revPrefix.
Proof.
  revert revPrefix. induction xs as [|x xs IH]; intros revPrefix; cbn [fold_left];
    [reflexivity|].
  rewrite IH, insertRev_perm. cbn [app].
  symmetry. apply Permutation_middle.
Qed.

Lemma insertionSort_perm (xs : list string) : insertionSort less xs ≡ₚ xs.
Proof.
  unfold insertionSort. rewrite reverse_Permutation, fold_insertRev_perm.
  rewrite app_nil_r. reflexivity.
Qed.

(** The reversed prefix stays sorted from the greatest element down. *)
Lemma insertRev_sorted (universe : list string) (x : string) (revPrefix : list string) :
  strictWeakOn less universe ->
  x ∈ universe -> (forall y, y ∈ revPrefix -> y ∈ universe) ->
  Sorted (fun a b => less a b = false) revPrefix ->
  Sorted (fun a b => less a b = false) (insertRev less x revPrefix).
Proof.
  intros [Hirr [Htrans Hneg]] Hx.
  induction revPrefix as [|y rest IH]; intros Hin Hsorted; cbn [insertRev].
  - repeat constructor.
  - destruct (less x y) eqn:Hxy.
    + apply Sorted_inv in Hsorted as [Hsorted Hhd].
      assert (Hy : y ∈ universe) by apply Hin, list_elem_of_here.
      assert (Hyx : less y x = false).
      { destruct (less y x) eqn:Hyx; [|reflexivity].
        rewrite <- (Hirr x Hx). symmetry. apply (Htrans x y x); assumption. }
      constructor.
      * apply IH; [|exact Hsorted]. intros z Hz. apply Hin, list_elem_of_further, Hz.
      * destruct rest as [|z rest']; cbn [insertRev].
        -- constructor. exact Hyx.
        -- apply HdRel_inv in Hhd. destruct (less x z); constructor; assumption.
    + constructor; [exact Hsorted | constructor; exact Hxy].
Qed.

Lemma fold_insertRev_sorted (universe xs revPrefix : list string) :
  strictWeakOn less universe ->
  (forall y, y ∈ xs -> y ∈ universe) -> (forall y, y ∈ revPrefix -> y ∈ universe) ->
  Sorted (fun a b => less a b = false) revPrefix ->
  Sorted (fun a b => less a b = false)
    (fold_left (fun acc x => insertRev less x acc) xs revPrefix).
Proof.
  intros Hweak. revert revPrefix.
  induction xs as [|x xs IH]; intros revPrefix Hxs Hprefix Hsorted; cbn [fold_left];
    [exact Hsorted|].
  apply IH.
  - intros y Hy. apply Hxs, list_elem_of_further, Hy.
  - intros y Hy. rewrite insertRev_perm in Hy. apply elem_of_cons in Hy.
    destruct Hy as [Heq | Hy]; [rewrite Heq; apply Hxs, list_elem_of_here | apply Hprefix, Hy].
  - apply (insertRev_sorted universe); [exact Hweak | apply Hxs, list_elem_of_here | exact Hprefix | exact Hsorted].
Qed.

Lemma insertionSort_sorted (xs : list string) :
  strictWeakOn less xs -> isSorted less (insertionSort less xs).
Proof.
  intros Hweak. unfold isSorted, insertionSort.
  apply (Sorted_reverse (fun a b => less a b = false)).
  apply (fold_insertRev_sorted xs); [exact Hweak | auto | | constructor].
  intros y Hy. apply elem_of_nil in Hy. contradiction.
Qed.

End SortFacts.

#[local] Instance insertionSort_contract : SortContract insertionSort.
Proof.
  split.
  - intros less xs. apply insertionSort_perm.
  - intros less xs. apply insertionSort_sorted.
Qed.

Section LatestFile.

Lemma fileLess_numeric (a b : string) (i j : Z) :
  Atoi a = Some i -> Atoi b = Some j -> fileLess a b = Z.ltb i j.
Proof. intros Ha Hb. unfold fileLess. rewrite Ha, Hb. reflexivity. Qed.

Lemma fileLess_lexicographic (a b : string) :
  Atoi a = None \/ Atoi b = None -> fileLess a b = String.ltb a b.
Proof.
  intros [Ha | Hb]; unfold fileLess.
  - rewrite Ha. reflexivity.
  - rewrite Hb. destruct (Atoi a); reflexivity.
Qed.

(** On names that all parse as integers, and on names none of which does, the
    comparator is a strict weak ordering. *)
Lemma fileLess_strictWeakOn (files : list string) :
  Forall (fun f => is_Some (Atoi f)) files \/ Forall (fun f => Atoi f = None) files ->
  strictWeakOn fileLess files.
Proof.
  intros [Hnum | Hlex].
  - rewrite Forall_forall in Hnum.
    split; [|split].
    + intros a Ha. destruct (Hnum a Ha) as [i Hi].
      rewrite (fileLess_numeric a a i i Hi Hi). apply Z.ltb_irrefl.
    + intros a b c Ha Hb Hc.
      destruct (Hnum a Ha) as [i Hi], (Hnum b Hb) as [j Hj], (Hnum c Hc) as [k Hk].
      rewrite (fileLess_numeric a b i j Hi Hj), (fileLess_numeric b c j k Hj Hk),
        (fileLess_numeric a c i k Hi Hk).
      rewrite !Z.ltb_lt. lia.
    + intros a b c Ha Hb Hc.
      destruct (Hnum a Ha) as [i Hi], (Hnum b Hb) as [j Hj], (Hnum c Hc) as [k Hk].
      rewrite (fileLess_numeric a b i j Hi Hj), (fileLess_numeric b c j k Hj Hk),
        (fileLess_numeric a c i k Hi Hk).
      rewrite !Z.ltb_ge. lia.
  - rewrite Forall_forall in Hlex.
    split; [|split].
    + intros a Ha. rewrite fileLess_lexicographic by (left; apply Hlex, Ha).
      apply string_ltb_irrefl.
    + intros a b c Ha Hb Hc.
      rewrite !fileLess_lexicographic by (left; apply Hlex; assumption).
      apply string_ltb_trans.
    + intros a b c Ha Hb Hc.
      rewrite !fileLess_lexicographic by (left; apply Hlex; assumption).
      apply string_ltb_negtrans.
Qed.

Variable sortSlice : (string -> string -> bool) -> list string -> list string.
Context {sortSliceContract : SortContract sortSlice}.

Lemma strictWeakOn_sorted (files : list string) :
  strictWeakOn fileLess files -> strictWeakOn fileLess (sortSlice fileLess files).
Proof.
  apply strictWeakOn_incl. intros x Hx. rewrite <- (sortSlice_perm fileLess files). exact Hx.
Qed.

(** C7.  [findLatestFile] sorts the names of the files of the directory with
    the one comparator [fileLess], numeric when both names parse as integers
    and lexicographic otherwise, and returns the last name of the sorted slice;
    when the comparator orders the names consistently no name is greater than
    the one returned, which it does when all names or none are integers.  Of
    [10], [2] and [9] it returns [10]; with no file it fails with the no-files
    error. *)
Theorem findLatestFile_selects_last_sorted (ReadDir : FileSystem) (dirPath : string)
    (entries : list DirEntry) :
  ReadDir dirPath = inr entries ->
  let files := List.map Name (List.filter (fun entry => negb (IsDir entry)) entries) in
  (forall a b i j, Atoi a = Some i -> Atoi b = Some j -> fileLess a b = Z.ltb i j)
  /\ (forall a b, Atoi a = None \/ Atoi b = None -> fileLess a b = String.ltb a b)
  /\ (files = [] ->
      findLatestFile sortSlice ReadDir dirPath = Failed ("no files found in " ++ dirPath))
  /\ (files <> [] ->
      exists latestFile,
        last (sortSlice fileLess files) = Some latestFile
        /\ latestFile ∈ files
        /\ findLatestFile sortSlice ReadDir dirPath = Located (dirPath ++ "/" ++ latestFile)
        /\ (strictWeakOn fileLess files -> forall f, f ∈ files -> fileLess latestFile f = false))
  /\ (Forall (fun f => is_Some (Atoi f)) files \/ Forall (fun f => Atoi f = None) files ->
      strictWeakOn fileLess files)
  /\ (files ≡ₚ ["10"; "2"; "9"] ->
      findLatestFile sortSlice ReadDir dirPath = Located (dirPath ++ "/10")).
Proof.
  intros Hread files.
  assert (Hlast : files <> [] ->
    exists latestFile,
      last (sortSlice fileLess files) = Some latestFile
      /\ latestFile ∈ files
      /\ findLatestFile sortSlice ReadDir dirPath = Located (dirPath ++ "/" ++ latestFile)
      /\ (strictWeakOn fileLess files -> forall f, f ∈ files -> fileLess latestFile f = false)).
  { intros Hne. unfold findLatestFile. rewrite Hread. fold files.
    destruct files as [|first rest] eqn:Hfiles; [contradiction|]. rewrite <- Hfiles in *.
    destruct (last (sortSlice fileLess files)) as [latestFile|] eqn:Hl.
    - exists latestFile. split; [reflexivity | split; [|split]].
      + rewrite <- (sortSlice_perm fileLess files). apply last_Some_elem_of. exact Hl.
      + rewrite Sprintf_s_path. reflexivity.
      + intros Hweak f Hf.
        apply (sorted_last_maximal fileLess (sortSlice fileLess files)).
        * apply strictWeakOn_sorted, Hweak.
        * apply sortSlice_sorted, Hweak.
        * exact Hl.
        * rewrite (sortSlice_perm fileLess files). exact Hf.
    - exfalso. apply last_None in Hl.
      pose proof (sortSlice_perm fileLess files) as Hperm. rewrite Hl in Hperm.
      apply Permutation_nil_l in Hperm. rewrite Hfiles in Hperm. discriminate. }
  split; [exact fileLess_numeric | split; [exact fileLess_lexicographic|] ].
  split; [|split; [exact Hlast | split; [apply fileLess_strictWeakOn|] ] ].
  - intros Hnil. unfold findLatestFile. rewrite Hread. fold files. rewrite Hnil.
    unfold Sprintf_s. cbn. rewrite string_app_nil_r. reflexivity.
  - intros Hperm.
    destruct Hlast as [latestFile [_ [Hin [-> Hmax]]]].
    { intros Hnil. rewrite Hnil in Hperm. apply Permutation_nil_l in Hperm. discriminate. }
    assert (Hten : fileLess latestFile "10" = false).
    { apply Hmax; [|rewrite Hperm; apply list_elem_of_here].
      apply fileLess_strictWeakOn. left. rewrite Hperm.
      repeat constructor; eexists; reflexivity. }
    rewrite Hperm in Hin. apply list_elem_of_In in Hin.
    destruct Hin as [<- | [<- | [<- | []]]];
      [reflexivity | discriminate Hten | discriminate Hten].
Qed.

End LatestFile.

Lemma findLatestFile_selects_last_sorted_witness :
  findLatestFile insertionSort sampleFS "/logs/2024-01-02" = Located "/logs/2024-01-02/10".
Proof.
  refine (proj2 (proj2 (proj2 (proj2 (proj2
    (findLatestFile_selects_last_sorted insertionSort sampleFS "/logs/2024-01-02" _ eq_refl)))))
    _).
  reflexivity.
Defined.

(** [strconv.Atoi] on file names. *)
Example Atoi_examples :
  Atoi "10" = Some 10%Z /\ Atoi "007" = Some 7%Z /\ Atoi "-3" = Some (-3)%Z
  /\ Atoi "+4" = Some 4%Z /\ Atoi "" = None /\ Atoi "-" = None /\ Atoi "1a" = None
  /\ Atoi "1_0" = None /\ Atoi "9223372036854775807" = Some 9223372036854775807%Z
  /\ Atoi "9223372036854775808" = None.
Proof. repeat split; reflexivity. Qed.

(** A mixed list on which the comparator is no ordering: [9 < 10] as numbers,
    [10 < 1a] and [1a < 9] as strings. *)
Example fileLess_cycle :
  fileLess "9" "10" = true /\ fileLess "10" "1a" = true /\ fileLess "1a" "9" = true.
Proof. repeat split; reflexivity. Qed.

(** * More of the code *)

(** ** [processLogEntry], [sendSlackAlert] and [sendPagerDutyAlert] *)

Section EvaluatorRuns.

Variable fmtFloat64 : float -> string.

(** The whole run of [processLogEntry], in one equation. *)
Lemma processLogEntry_run (logEntry : LogArrayEntry) (config : Config) (ptr : N) :
  processLogEntry fmtFloat64 logEntry config ptr =
  (Printf (LogTimestamp (Timestamp logEntry))
     :: (if alertDecision logEntry config
         then [PostMessage (SlackChannel config)
                 (alertMessage fmtFloat64 config (evaluatedStatus logEntry config) ptr);
               ManageEvent (PagerDutyAPIKey config)
                 (alertMessage fmtFloat64 config (evaluatedStatus logEntry config) ptr)]
         else []),
   Some tt).
Proof.
  unfold alertDecision, evaluatedStatus.
  destruct (HeartbeatStatuses (Validator logEntry) !! ValidatorAddress config)
    as [st|] eqn:Hlookup.
  - rewrite (processLogEntry_found _ _ _ _ _ Hlookup). simpl.
    destruct (_ || _); reflexivity.
  - rewrite (processLogEntry_not_found _ _ _ _ Hlookup). reflexivity.
Qed.

(** X1.  The first thing [processLogEntry] does is to write the timestamp line,
    and the requests it sends are either none, or one message to the configured
    Slack channel followed by one PagerDuty event with the configured key, both
    with the same text. *)
Theorem processLogEntry_alert_pair (logEntry : LogArrayEntry) (config : Config) (ptr : N) :
  let run := processLogEntry fmtFloat64 logEntry config ptr in
  (exists rest, fst run = Printf (LogTimestamp (Timestamp logEntry)) :: rest)
  /\ (List.filter isAlert (fst run) = []
      \/ exists text,
           List.filter isAlert (fst run)
           = [PostMessage (SlackChannel config) text;
              ManageEvent (PagerDutyAPIKey config) text]).
Proof.
  intros run. subst run. rewrite processLogEntry_run. split.
  - eexists. reflexivity.
  - destruct (alertDecision logEntry config).
    + right. eexists. reflexivity.
    + left. reflexivity.
Qed.

(** X2.  Of the whole record [processLogEntry] reads the timestamp and the
    status of the configured address: two records that agree on these give the
    same run, whatever they hold for other validators. *)
Theorem processLogEntry_reads_target_only (entry1 entry2 : LogArrayEntry) (config : Config)
    (ptr : N) :
  Timestamp entry1 = Timestamp entry2 ->
  HeartbeatStatuses (Validator entry1) !! ValidatorAddress config
  = HeartbeatStatuses (Validator entry2) !! ValidatorAddress config ->
  processLogEntry fmtFloat64 entry1 config ptr = processLogEntry fmtFloat64 entry2 config ptr.
Proof.
  intros Hts Hlookup. rewrite !processLogEntry_run.
  unfold alertDecision, evaluatedStatus. rewrite Hts, Hlookup. reflexivity.
Qed.

End EvaluatorRuns.

Lemma processLogEntry_reads_target_only_witness :
  processLogEntry fmtSample entryQuiet config0 0
  = processLogEntry fmtSample
      (entryOf (<["0xdef" := status 99 None]> {[ "0xabc" := status 10 (Some 0.01%float) ]}))
      config0 0.
Proof.
  apply (processLogEntry_reads_target_only fmtSample); [reflexivity|].
  vm_compute. reflexivity.
Defined.

(** ** The poll cycle *)

Section CycleRuns.

Variable fmtFloat64 : float -> string.

Lemma no_garbage_values (file : list chunk) :
  Garbage ∉ file -> exists lines, file = List.map Value lines.
Proof.
  induction file as [|[raw|] file IH]; intros Hno.
  - exists []. reflexivity.
  - destruct IH as [lines ->].
    + intros Hin. apply Hno, list_elem_of_further, Hin.
    + exists (raw :: lines). reflexivity.
  - destruct Hno. apply list_elem_of_here.
Qed.

(** X3.  The loop of lines 135 to 145 reaches its [break] exactly on the files
    in which every chunk is JSON, after one call of [Decode] per value and one
    more, and it has then logged nothing; on a file with bytes that are no JSON
    no number of iterations reaches the [break]. *)
Theorem read_loop_ends_iff_all_json (file : list chunk) :
  (Garbage ∉ file ->
     exists last, readEntries (S (length file)) (NewDecoder file) None = Some ([], last))
  /\ (Garbage ∈ file -> forall fuel, readEntries fuel (NewDecoder file) None = None).
Proof.
  split.
  - intros Hno. destruct (no_garbage_values file Hno) as [lines ->].
    eexists. rewrite length_map. apply (readEntries_values lines None 0).
  - intros Hin fuel. apply readEntries_garbage. exact Hin.
Qed.

(** The five ways the block of lines 148 to 182 ends. *)
Lemma evaluateLast_cases (config : Config) (ptr : N) (raw : json) :
  evaluateLast fmtFloat64 config ptr raw
    = ([Printf (LogRawContent raw); Printf LogNotArray], Some FallThrough)
  \/ (exists first, evaluateLast fmtFloat64 config ptr raw
        = ([Printf (LogRawContent raw); Printf (LogBadTimestamp first)], Some Continue))
  \/ evaluateLast fmtFloat64 config ptr raw
       = ([Printf (LogRawContent raw); Printf LogDecodeValidatorError], Some Continue)
  \/ evaluateLast fmtFloat64 config ptr raw = ([Printf (LogRawContent raw)], None)
  \/ (exists logEntry, evaluateLast fmtFloat64 config ptr raw
        = ((Printf (LogRawContent raw)
              :: fst (processLogEntry fmtFloat64 logEntry config ptr))%list,
           Some FallThrough)).
Proof.
  unfold evaluateLast.
  destruct (unmarshalLogArray raw) as [[|first [|second [|third rest]]]|];
    try (left; reflexivity).
  destruct first; try (right; left; eexists; reflexivity).
  destruct (UnmarshalJSON zeroValidatorData second) as [validatorData| |].
  - right; right; right; right. exists {| Timestamp := s; Validator := validatorData |}.
    rewrite processLogEntry_run. destruct (alertDecision _ config); reflexivity.
  - right; right; left. reflexivity.
  - right; right; right; left. reflexivity.
Qed.

(** X4.  A cycle over a file of JSON lines sends at most one alert: nothing, or
    one Slack message followed by one PagerDuty event with the same text. *)
Theorem pollCycle_at_most_one_alert (config : Config) (ptr : N) (lines : list json)
    (raw : json) (k : nat) :
  exists run,
    pollCycle fmtFloat64 (k + S (S (length lines))) config ptr
      (Some (List.map Value (lines ++ [raw]))) = Some run
    /\ (List.filter isAlert (fst run) = []
        \/ exists text,
             List.filter isAlert (fst run)
             = [PostMessage (SlackChannel config) text;
                ManageEvent (PagerDutyAPIKey config) text]).
Proof.
  rewrite pollCycle_values. eexists. split; [reflexivity|].
  destruct (evaluateLast_cases config ptr raw)
    as [H | [[first H] | [H | [H | [logEntry H]]]]]; rewrite H;
    try (left; reflexivity).
  rewrite processLogEntry_run. destruct (alertDecision logEntry config).
  - right. eexists. reflexivity.
  - left. reflexivity.
Qed.

(** X5.  When line 152 decodes the last line into a two-element array whose
    first element is no string, or whose second element fails to decode as
    validator data, the [continue] of lines 157 and 169 leaves the cycle before
    [file.Close()] and before the sleep: the file stays open, nothing is sent,
    and the next cycle starts at once. *)
Theorem continue_skips_close_and_sleep (config : Config) (ptr : N) (lines : list json)
    (raw first second : json) (k : nat) :
  unmarshalLogArray raw = Some [first; second] ->
  (forall s, first <> JString s)
  \/ (exists ts, first = JString ts /\ UnmarshalJSON zeroValidatorData second = Err) ->
  exists run,
    pollCycle fmtFloat64 (k + S (S (length lines))) config ptr
      (Some (List.map Value (lines ++ [raw]))) = Some run
    /\ snd run = Some Continue
    /\ ~ Close ∈ fst run
    /\ (forall seconds, ~ Sleep seconds ∈ fst run)
    /\ alerted run = false.
Proof.
  intros Harray Hbad.
  assert (Heval : exists line,
    evaluateLast fmtFloat64 config ptr raw
    = ([Printf (LogRawContent raw); Printf line], Some Continue)).
  { unfold evaluateLast. rewrite Harray.
    destruct Hbad as [Hfirst | [ts [-> Herr]]].
    - destruct first as [| | |s| |]; try (eexists; reflexivity).
      destruct (Hfirst s). reflexivity.
    - rewrite Herr. eexists. reflexivity. }
  destruct Heval as [line Heval]. rewrite pollCycle_values, Heval.
  eexists. split; [reflexivity|]. cbn.
  split; [reflexivity | split; [|split; [|reflexivity]]].
  - intros Hin. apply list_elem_of_In in Hin.
    destruct Hin as [H | [H | []]]; discriminate H.
  - intros seconds Hin. apply list_elem_of_In in Hin.
    destruct Hin as [H | [H | []]]; discriminate H.
Qed.

(** X6.  When the record of the last line decodes and holds no status for the
    configured address (the validator object may lack [heartbeat_statuses]
    altogether), the cycle writes the timestamp line and sends the alert with
    the zero values, to Slack and then to PagerDuty. *)
Theorem missing_validator_alerts (config : Config) (ptr : N) (lines : list json)
    (raw : json) (ts : string) (second : json) (vd : ValidatorData) (k : nat) :
  unmarshalLogArray raw = Some [JString ts; second] ->
  UnmarshalJSON zeroValidatorData second = Ok vd ->
  HeartbeatStatuses vd !! ValidatorAddress config = None ->
  exists run,
    pollCycle fmtFloat64 (k + S (S (length lines))) config ptr
      (Some (List.map Value (lines ++ [raw]))) = Some run
    /\ Printf (LogTimestamp ts) ∈ fst run
    /\ List.filter isAlert (fst run)
       = [PostMessage (SlackChannel config)
            (alertMessage fmtFloat64 config zeroHeartbeatStatus ptr);
          ManageEvent (PagerDutyAPIKey config)
            (alertMessage fmtFloat64 config zeroHeartbeatStatus ptr)].
Proof.
  intros Harray Hdecode Hmiss. rewrite pollCycle_values.
  unfold evaluateLast. rewrite Harray, Hdecode.
  rewrite (processLogEntry_not_found fmtFloat64
             {| Timestamp := ts; Validator := vd |} config ptr Hmiss).
  eexists. split; [reflexivity|]. cbn.
  split; [apply list_elem_of_further, list_elem_of_here | reflexivity].
Qed.

End CycleRuns.

(** X7.  [UnmarshalJSON] panics exactly on the text [null], which sets [aux] to
    nil before line 87 reads through it; a cycle whose last line is
    [[timestamp, null]] therefore ends in that panic, after the raw-content line
    and before [file.Close()]. *)
Theorem UnmarshalJSON_panics_iff_null (vd : ValidatorData) (data : json) :
  (UnmarshalJSON vd data = Panic <-> data = JNull)
  /\ forall fmtFloat64 config ptr lines ts k,
       pollCycle fmtFloat64 (k + S (S (length lines))) config ptr
         (Some (List.map Value (lines ++ [JArray [JString ts; JNull]])))
       = Some ([Printf (LogRawContent (JArray [JString ts; JNull]))], None).
Proof.
  split.
  - unfold UnmarshalJSON, unmarshalAux. split.
    + destruct data as [| | | | |members]; try discriminate; [reflexivity|].
      destruct (fold_left storeAuxMember members _) as [aux failed].
      destruct failed; discriminate.
    + intros ->. reflexivity.
  - intros fmtFloat64 config ptr lines ts k. rewrite pollCycle_values. reflexivity.
Qed.

Lemma continue_skips_close_and_sleep_witness :
  exists run,
    pollCycle fmtSample 2 config0 0 (Some [Value (JArray [JNumber 1; JNull])]) = Some run
    /\ snd run = Some Continue
    /\ ~ Close ∈ fst run
    /\ (forall seconds, ~ Sleep seconds ∈ fst run)
    /\ alerted run = false.
Proof.
  refine (continue_skips_close_and_sleep fmtSample config0 0 []
            (JArray [JNumber 1; JNull]) (JNumber 1) JNull 0 eq_refl _).
  left. intros s. discriminate.
Defined.

Lemma missing_validator_alerts_witness :
  exists run,
    pollCycle fmtSample 2 config0 0 (Some [Value (JArray [JString "t"; JObject []])])
    = Some run
    /\ Printf (LogTimestamp "t") ∈ fst run
    /\ List.filter isAlert (fst run)
       = [PostMessage "#alerts" (alertMessage fmtSample config0 zeroHeartbeatStatus 0);
          ManageEvent "routing-key" (alertMessage fmtSample config0 zeroHeartbeatStatus 0)].
Proof.
  exact (missing_validator_alerts fmtSample config0 0 [] (JArray [JString "t"; JObject []])
           "t" (JObject []) zeroValidatorData 0 eq_refl eq_refl eq_refl).
Defined.

(** ** The decoder *)

Section DecoderLaws.

Implicit Types (entries : list (list json)) (m : gmap string HeartbeatStatus).

Lemma storeEntry_decodedPair m (entry : list json) :
  storeEntry m entry
  = match decodedPair entry with
    | Some (key, hs) => <[key := hs]> m
    | None => m
    end.
Proof.
  unfold storeEntry, decodedPair.
  destruct entry as [|k [|v [|x rest]]]; try reflexivity;
    destruct k; try reflexivity.
  destruct (unmarshalHeartbeatStatus v); reflexivity.
Qed.

(** The map in closed form: the decoded pairs, the later ones first. *)
Lemma convert_list_to_map entries :
  convertHeartbeatStatuses entries = list_to_map (reverse (omap decodedPair entries)).
Proof.
  unfold convertHeartbeatStatuses.
  induction entries as [|entry entries IH] using rev_ind; [reflexivity|].
  rewrite fold_left_app, omap_app, reverse_app. cbn [fold_left].
  rewrite storeEntry_decodedPair, IH.
  cbn. destruct (decodedPair entry) as [[key hs]|]; reflexivity.
Qed.

(** X8.  Decoding a sequence of pairs in two parts: the map of the whole is the
    map of the second part, completed by the entries of the first part for the
    addresses the second part does not mention. *)
Theorem convert_app entries1 entries2 :
  convertHeartbeatStatuses (entries1 ++ entries2)
  = convertHeartbeatStatuses entries2 ∪ convertHeartbeatStatuses entries1.
Proof.
  rewrite !convert_list_to_map, omap_app, reverse_app. apply list_to_map_app.
Qed.

(** X9.  When no two well-formed pairs carry the same address, the order of the
    pairs in [heartbeat_statuses] does not matter. *)
Theorem convert_order_irrelevant entries entries' :
  NoDup ((omap decodedPair entries).*1) ->
  entries ≡ₚ entries' ->
  convertHeartbeatStatuses entries = convertHeartbeatStatuses entries'.
Proof.
  intros Hnodup Hperm. rewrite !convert_list_to_map.
  apply list_to_map_proper.
  - rewrite reverse_Permutation. exact Hnodup.
  - rewrite !reverse_Permutation, Hperm. reflexivity.
Qed.

Implicit Types (members : list (string * json)).

Lemma unmarshal_object_app (before after : list (string * json)) :
  unmarshalHeartbeatStatus (JObject (before ++ after))
  = let '(hs, failed) :=
      fold_left storeStatusMember after
        (fold_left storeStatusMember before (zeroHeartbeatStatus, false)) in
    if failed then None else Some hs.
Proof. unfold unmarshalHeartbeatStatus. rewrite fold_left_app. reflexivity. Qed.

(** X10.  A member of a status object whose key matches neither
    [since_last_success] nor [last_ack_duration] is ignored, whatever its
    value. *)
Theorem unknown_status_member_ignored (before after : list (string * json)) (key : string)
    (value : json) :
  lookupField hsFields key = None ->
  unmarshalHeartbeatStatus (JObject (before ++ (key, value) :: after))
  = unmarshalHeartbeatStatus (JObject (before ++ after)).
Proof.
  intros Hkey. rewrite !unmarshal_object_app. cbn [fold_left].
  destruct (fold_left storeStatusMember before _) as [hs failed].
  unfold storeStatusMember at 2. cbn [fst snd]. rewrite Hkey. reflexivity.
Qed.

(** X11.  A member that matches one of the two fields and holds neither a
    number nor [null] makes the whole status fail to decode, whatever the other
    members are; the loop of [UnmarshalJSON] then skips the pair. *)
Theorem wrong_type_rejects_status (before after : list (string * json)) (key : string)
    (value : json) (field : hsField) :
  lookupField hsFields key = Some field ->
  (forall f, value <> JNumber f) -> value <> JNull ->
  unmarshalHeartbeatStatus (JObject (before ++ (key, value) :: after)) = None
  /\ forall m address,
       storeEntry m [JString address; JObject (before ++ (key, value) :: after)] = m.
Proof.
  intros Hkey Hnumber Hnull.
  assert (Hnone : unmarshalHeartbeatStatus (JObject (before ++ (key, value) :: after)) = None).
  { rewrite unmarshal_object_app. cbn [fold_left].
    destruct (fold_left storeStatusMember before _) as [hs failed].
    assert (Hstep : storeStatusMember (hs, failed) (key, value) = (hs, true)).
    { unfold storeStatusMember. cbn [fst snd]. rewrite Hkey.
      destruct field; destruct value as [| |f| | |]; try reflexivity;
        try (destruct Hnull; reflexivity); destruct (Hnumber f); reflexivity. }
    rewrite Hstep.
    pose proof (fold_storeStatusMember_failed after hs) as Hf.
    destruct (fold_left storeStatusMember after _) as [hs1 failed1].
    simpl in Hf. subst failed1. reflexivity. }
  split; [exact Hnone|].
  intros m address. unfold storeEntry. rewrite Hnone. reflexivity.
Qed.

End DecoderLaws.

Lemma convert_order_irrelevant_witness :
  convertHeartbeatStatuses
    [ [JString "0xabc"; statusObject 41 JNull]; [JString "0xdef"; statusObject 5 (JNumber 0)] ]
  = convertHeartbeatStatuses
      [ [JString "0xdef"; statusObject 5 (JNumber 0)]; [JString "0xabc"; statusObject 41 JNull] ].
Proof.
  apply convert_order_irrelevant.
  - repeat constructor; [|intros H; apply elem_of_nil in H; exact H].
    intros H. apply list_elem_of_In in H. destruct H as [H | []]. discriminate H.
  - apply Permutation_swap.
Defined.

Lemma unknown_status_member_ignored_witness :
  unmarshalHeartbeatStatus
    (JObject [("last_ack_duration", JNull); ("round", JString "7");
              ("since_last_success", JNumber 41)])
  = unmarshalHeartbeatStatus
      (JObject [("last_ack_duration", JNull); ("since_last_success", JNumber 41)]).
Proof.
  exact (unknown_status_member_ignored [("last_ack_duration", JNull)]
           [("since_last_success", JNumber 41)] "round" (JString "7") eq_refl).
Defined.

Lemma wrong_type_rejects_status_witness :
  unmarshalHeartbeatStatus
    (JObject [("last_ack_duration", JString "slow"); ("since_last_success", JNumber 41)])
  = None.
Proof.
  refine (proj1 (wrong_type_rejects_status [] [("since_last_success", JNumber 41)]
                   "last_ack_duration" (JString "slow") FLastAckDuration eq_refl _ _));
    intros; discriminate.
Defined.

Section ValidatorDataFailures.

Lemma storeAuxMember_failed (aux : Aux) (kv : string * json) :
  snd (storeAuxMember (aux, true) kv) = true.
Proof.
  unfold storeAuxMember.
  destruct (lookupField auxFields (fst kv)) as [[| |]|]; try reflexivity;
    destruct (snd kv) as [| | | |elems|]; try reflexivity.
  - destruct (unmarshalSlice unmarshalPair [] elems). reflexivity.
  - destruct (unmarshalSlice unmarshalString "" elems). reflexivity.
Qed.

Lemma fold_storeAuxMember_failed (members : list (string * json)) (aux : Aux) :
  snd (fold_left storeAuxMember members (aux, true)) = true.
Proof.
  revert aux. induction members as [|kv members IH]; intros aux; [reflexivity|].
  cbn [fold_left].
  pose proof (storeAuxMember_failed aux kv) as Hstep.
  destruct (storeAuxMember (aux, true) kv) as [aux' failed]. simpl in Hstep. subst failed.
  apply IH.
Qed.

Lemma unmarshalSlice_failed {A : Type} (elem : json -> option A) (zero : A)
    (js : list json) (x : json) :
  x ∈ js -> elem x = None -> snd (unmarshalSlice elem zero js) = true.
Proof.
  intros Hin Hx. induction js as [|j js IH]; [apply elem_of_nil in Hin; contradiction|].
  cbn [unmarshalSlice]. apply elem_of_cons in Hin. destruct Hin as [Heq | Hin].
  - subst j. destruct (unmarshalSlice elem zero js). rewrite Hx. reflexivity.
  - specialize (IH Hin). destruct (unmarshalSlice elem zero js) as [xs failed].
    simpl in IH. subst failed. destruct (elem j); reflexivity.
Qed.

(** A member that saves an error makes [json.Unmarshal(data, &aux)] return it. *)
Lemma UnmarshalJSON_failed_member (vd : ValidatorData) (before after : list (string * json))
    (kv : string * json) :
  (forall aux failed, snd (storeAuxMember (aux, failed) kv) = true) ->
  UnmarshalJSON vd (JObject (before ++ kv :: after)) = Err.
Proof.
  intros Hstep. unfold UnmarshalJSON, unmarshalAux.
  rewrite fold_left_app. cbn [fold_left].
  destruct (fold_left storeAuxMember before _) as [aux failed].
  specialize (Hstep aux failed).
  destruct (storeAuxMember (aux, failed) kv) as [aux' failed']. simpl in Hstep. subst failed'.
  pose proof (fold_storeAuxMember_failed after aux') as Hf.
  destruct (fold_left storeAuxMember after _) as [aux'' failed'']. simpl in Hf.
  subst failed''. reflexivity.
Qed.

(** X12.  [UnmarshalJSON] returns an error, and the record is not evaluated,
    as soon as one member of the validator object has the wrong type for its
    field: a [home_validator] that is neither a string nor [null], a
    [heartbeat_statuses] that is neither an array nor [null], or a
    [heartbeat_statuses] array with an element that is neither an array nor
    [null]; the other members, well-formed pairs included, do not help. *)
Theorem UnmarshalJSON_wrong_type_fails (vd : ValidatorData)
    (before after : list (string * json)) (key : string) (value : json) :
  (lookupField auxFields key = Some FHomeValidator
   /\ (forall s, value <> JString s) /\ value <> JNull)
  \/ (lookupField auxFields key = Some FHeartbeatStatuses
      /\ (forall elems, value <> JArray elems) /\ value <> JNull)
  \/ (lookupField auxFields key = Some FHeartbeatStatuses
      /\ exists elems x, value = JArray elems /\ x ∈ elems
                         /\ (forall pair, x <> JArray pair) /\ x <> JNull) ->
  UnmarshalJSON vd (JObject (before ++ (key, value) :: after)) = Err.
Proof.
  intros Hbad. apply UnmarshalJSON_failed_member. intros aux failed.
  unfold storeAuxMember. cbn [fst snd].
  destruct Hbad as [[Hkey [Hstr Hnull]] | [[Hkey [Harr Hnull]] | [Hkey Helem]]];
    rewrite Hkey.
  - destruct value as [| | |s| |]; try reflexivity;
      [destruct Hnull; reflexivity | destruct (Hstr s); reflexivity].
  - destruct value as [| | | |elems|]; try reflexivity;
      [destruct Hnull; reflexivity | destruct (Harr elems); reflexivity].
  - destruct Helem as [elems [x [-> [Hin [Hpair Hnull]]]]].
    assert (Hx : unmarshalPair x = None).
    { destruct x as [| | | |pair|]; try reflexivity;
        [destruct Hnull; reflexivity | destruct (Hpair pair); reflexivity]. }
    pose proof (unmarshalSlice_failed unmarshalPair [] elems x Hin Hx) as Hf.
    destruct (unmarshalSlice unmarshalPair [] elems) as [pairs bad]. simpl in Hf.
    subst bad. simpl. apply orb_true_r.
Qed.

End ValidatorDataFailures.

Lemma UnmarshalJSON_wrong_type_fails_witness :
  UnmarshalJSON zeroValidatorData
    (JObject [("heartbeat_statuses",
               JArray [JArray [JString "0xabc"; statusObject 41 JNull]]);
              ("home_validator", JNumber 7)])
  = Err.
Proof.
  refine (UnmarshalJSON_wrong_type_fails zeroValidatorData
            [("heartbeat_statuses", JArray [JArray [JString "0xabc"; statusObject 41 JNull]])]
            [] "home_validator" (JNumber 7) _).
  left. split; [reflexivity | split; [intros s|]; discriminate].
Defined.

(** ** The locator *)

Section LocatorRuns.

Lemma findLatestDir_no_dirs (ReadDir : FileSystem) (basePath : string)
    (entries : list DirEntry) :
  ReadDir basePath = inr entries -> dirsOf entries = [] ->
  findLatestDir ReadDir basePath = Failed ("no directories found in " ++ basePath).
Proof.
  intros Hread Hnil. unfold findLatestDir. rewrite Hread. fold (dirsOf entries).
  rewrite Hnil. unfold Sprintf_s. cbn. rewrite string_app_nil_r. reflexivity.
Qed.

Lemma findLatestDir_located (ReadDir : FileSystem) (basePath : string)
    (entries : list DirEntry) :
  ReadDir basePath = inr entries -> dirsOf entries <> [] ->
  exists dir,
    dir ∈ dirsOf entries
    /\ (forall d, d ∈ dirsOf entries -> String.leb d dir = true)
    /\ findLatestDir ReadDir basePath = Located (basePath ++ "/" ++ dir).
Proof.
  intros Hread Hne. unfold findLatestDir. rewrite Hread. fold (dirsOf entries).
  destruct (dirsOf entries) as [|first rest] eqn:Hdirs; [contradiction|].
  destruct (latestOf_spec (first :: rest) first) as [Hin [_ Hall]].
  exists (latestOf (first :: rest) first). split; [|split].
  - destruct Hin as [Heq | Hin]; [rewrite Heq; apply list_elem_of_here | exact Hin].
  - exact Hall.
  - rewrite Sprintf_s_path. reflexivity.
Qed.

(** The greatest name is the one the loop ends on. *)
Lemma findLatestDir_greatest (ReadDir : FileSystem) (basePath : string)
    (entries : list DirEntry) (dir : string) :
  ReadDir basePath = inr entries ->
  dir ∈ dirsOf entries ->
  (forall d, d ∈ dirsOf entries -> String.leb d dir = true) ->
  findLatestDir ReadDir basePath = Located (basePath ++ "/" ++ dir).
Proof.
  intros Hread Hin Hmax.
  destruct (findLatestDir_located ReadDir basePath entries Hread) as [dir' [Hin' [Hmax' ->]]].
  { intros Hnil. rewrite Hnil in Hin. apply elem_of_nil in Hin. exact Hin. }
  rewrite (String.leb_antisym dir dir'); [reflexivity | apply Hmax', Hin | apply Hmax, Hin'].
Qed.

Variable sortSlice : (string -> string -> bool) -> list string -> list string.
Context {sortSliceContract : SortContract sortSlice}.

Lemma findLatestFile_no_files (ReadDir : FileSystem) (dirPath : string)
    (entries : list DirEntry) :
  ReadDir dirPath = inr entries -> filesOf entries = [] ->
  findLatestFile sortSlice ReadDir dirPath = Failed ("no files found in " ++ dirPath).
Proof.
  intros Hread Hnil. unfold findLatestFile. rewrite Hread. fold (filesOf entries).
  rewrite Hnil. unfold Sprintf_s. cbn. rewrite string_app_nil_r. reflexivity.
Qed.

Lemma findLatestFile_located (ReadDir : FileSystem) (dirPath : string)
    (entries : list DirEntry) :
  ReadDir dirPath = inr entries -> filesOf entries <> [] ->
  exists file,
    last (sortSlice fileLess (filesOf entries)) = Some file
    /\ file ∈ filesOf entries
    /\ findLatestFile sortSlice ReadDir dirPath = Located (dirPath ++ "/" ++ file).
Proof.
  intros Hread Hne. unfold findLatestFile. rewrite Hread. fold (filesOf entries).
  destruct (filesOf entries) as [|first rest] eqn:Hfiles; [contradiction|].
  rewrite <- Hfiles in *.
  destruct (last (sortSlice fileLess (filesOf entries))) as [file|] eqn:Hlast.
  - exists file. split; [reflexivity | split].
    + rewrite <- (sortSlice_perm fileLess (filesOf entries)).
      apply last_Some_elem_of. exact Hlast.
    + rewrite Sprintf_s_path. reflexivity.
  - exfalso. apply last_None in Hlast.
    pose proof (sortSlice_perm fileLess (filesOf entries)) as Hperm.
    rewrite Hlast in Hperm. apply Permutation_nil_l in Hperm. symmetry in Hperm.
    contradiction.
Qed.

(** X13.  [findLatestLogFile] never indexes out of range, and a path it returns
    is [basePath/dir/file], where [dir] is the greatest subdirectory name of the
    base path, in byte order, and [file] is the name of an entry of [dir] that
    is no directory, the last one after sorting. *)
Theorem findLatestLogFile_located (ReadDir : FileSystem) (basePath : string) :
  findLatestLogFile sortSlice ReadDir basePath <> IndexPanic
  /\ forall path,
       findLatestLogFile sortSlice ReadDir basePath = Located path ->
       exists entries dir entries' file,
         ReadDir basePath = inr entries
         /\ dir ∈ dirsOf entries
         /\ (forall d, d ∈ dirsOf entries -> String.leb d dir = true)
         /\ ReadDir (basePath ++ "/" ++ dir) = inr entries'
         /\ file ∈ filesOf entries'
         /\ last (sortSlice fileLess (filesOf entries')) = Some file
         /\ path = (basePath ++ "/" ++ dir) ++ "/" ++ file.
Proof.
  unfold findLatestLogFile.
  destruct (ReadDir basePath) as [e|entries] eqn:Hbase.
  { unfold findLatestDir. rewrite Hbase. split; [discriminate | intros path; discriminate]. }
  destruct (dirsOf entries) as [|d0 ds] eqn:Hdirs.
  { rewrite (findLatestDir_no_dirs _ _ _ Hbase Hdirs).
    split; [discriminate | intros path; discriminate]. }
  destruct (findLatestDir_located ReadDir basePath entries Hbase) as [dir [Hin [Hmax ->]]].
  { rewrite Hdirs. discriminate. }
  destruct (ReadDir (basePath ++ "/" ++ dir)) as [e|entries'] eqn:Hdir.
  { unfold findLatestFile. rewrite Hdir. split; [discriminate | intros path; discriminate]. }
  destruct (filesOf entries') as [|f0 fs] eqn:Hfiles.
  { rewrite (findLatestFile_no_files _ _ _ Hdir Hfiles).
    split; [discriminate | intros path; discriminate]. }
  destruct (findLatestFile_located ReadDir _ entries' Hdir) as [file [Hlast [Hfile ->]]].
  { rewrite Hfiles. discriminate. }
  split; [discriminate|].
  intros path [= <-]. exists entries, dir, entries', file.
  repeat split; assumption.
Qed.

(** X14.  The four failures of [findLatestLogFile]: the base path cannot be
    listed, it has no subdirectory, the greatest subdirectory cannot be listed,
    or it holds no file.  In the last two cases the older subdirectories are not
    tried, whatever they hold.  Each error carries the text of its cause behind
    the prefix of lines 208 and 213. *)
Theorem findLatestLogFile_failures (ReadDir : FileSystem) (basePath : string) :
  (forall e, ReadDir basePath = inl e ->
     findLatestLogFile sortSlice ReadDir basePath
     = Failed ("failed to find latest date directory: " ++ e))
  /\ (forall entries, ReadDir basePath = inr entries -> dirsOf entries = [] ->
        findLatestLogFile sortSlice ReadDir basePath
        = Failed ("failed to find latest date directory: no directories found in "
                    ++ basePath))
  /\ (forall entries dir,
        ReadDir basePath = inr entries ->
        dir ∈ dirsOf entries ->
        (forall d, d ∈ dirsOf entries -> String.leb d dir = true) ->
        (forall e, ReadDir (basePath ++ "/" ++ dir) = inl e ->
           findLatestLogFile sortSlice ReadDir basePath
           = Failed ("failed to find latest log file: " ++ e))
        /\ (forall entries', ReadDir (basePath ++ "/" ++ dir) = inr entries' ->
              filesOf entries' = [] ->
              findLatestLogFile sortSlice ReadDir basePath
              = Failed ("failed to find latest log file: no files found in "
                          ++ basePath ++ "/" ++ dir))).
Proof.
  unfold findLatestLogFile. split; [|split].
  - intros e Hbase. unfold findLatestDir. rewrite Hbase. cbn.
    rewrite string_app_nil_r. reflexivity.
  - intros entries Hbase Hnil. rewrite (findLatestDir_no_dirs _ _ _ Hbase Hnil). cbn.
    rewrite string_app_nil_r. reflexivity.
  - intros entries dir Hbase Hin Hmax.
    rewrite (findLatestDir_greatest _ _ _ _ Hbase Hin Hmax). split.
    + intros e Hdir. unfold findLatestFile. rewrite Hdir. cbn.
      rewrite string_app_nil_r. reflexivity.
    + intros entries' Hdir Hnil. rewrite (findLatestFile_no_files _ _ _ Hdir Hnil). cbn.
      rewrite string_app_nil_r. reflexivity.
Qed.

End LocatorRuns.

(** X15.  The comparator of [findLatestFile] on any two names: it is never true
    both ways, and it is false both ways only for one name taken twice and for
    two names that parse to the same integer, such as [7] and [007].  It is not
    transitive: [9 < 10] as integers, [10 < 1a] and [1a < 9] as strings. *)
Theorem fileLess_asymmetric_not_transitive :
  (forall a b, fileLess a b = true -> fileLess b a = false)
  /\ (forall a b, fileLess a b = false -> fileLess b a = false ->
        a = b \/ exists i, Atoi a = Some i /\ Atoi b = Some i)
  /\ ~ (forall a b c, fileLess a b = true -> fileLess b c = true -> fileLess a c = true).
Proof.
  split; [|split].
  - intros a b. unfold fileLess.
    destruct (Atoi a) as [i|], (Atoi b) as [j|];
      try (intros H; rewrite string_ltb_leb, (string_ltb_leb_incl _ _ H); reflexivity).
    rewrite Z.ltb_lt, Z.ltb_ge. lia.
  - intros a b. unfold fileLess.
    destruct (Atoi a) as [i|], (Atoi b) as [j|];
      try (intros Hab Hba; left; apply String.leb_antisym;
           apply string_ltb_false_leb; assumption).
    rewrite !Z.ltb_ge. intros Hab Hba. right. exists i.
    split; [reflexivity | f_equal; lia].
  - intros Htrans. specialize (Htrans "9" "10" "1a" eq_refl eq_refl). discriminate Htrans.
Qed.

Lemma findLatestLogFile_failures_witness :
  findLatestLogFile insertionSort
    (fun path =>
       if String.eqb path "/logs" then
         inr [ {| Name := "2024-01-01"; IsDir := true |};
               {| Name := "2024-01-02"; IsDir := true |} ]
       else if String.eqb path "/logs/2024-01-01" then
         inr [ {| Name := "10"; IsDir := false |} ]
       else inr [])
    "/logs"
  = Failed "failed to find latest log file: no files found in /logs/2024-01-02".
Proof.
  refine (proj2 (proj2 (proj2 (findLatestLogFile_failures insertionSort _ "/logs"))
                  _ "2024-01-02" eq_refl _ _) [] eq_refl eq_refl).
  - apply list_elem_of_further, list_elem_of_here.
  - intros d Hd. apply list_elem_of_In in Hd.
    destruct Hd as [<- | [<- | []]]; reflexivity.
Defined.

Lemma findLatestLogFile_located_witness :
  exists entries dir entries' file,
    sampleFS "/logs" = inr entries
    /\ dir ∈ dirsOf entries
    /\ (forall d, d ∈ dirsOf entries -> String.leb d dir = true)
    /\ sampleFS ("/logs" ++ "/" ++ dir) = inr entries'
    /\ file ∈ filesOf entries'
    /\ last (insertionSort fileLess (filesOf entries')) = Some file
    /\ "/logs/2024-01-02/10" = ("/logs" ++ "/" ++ dir) ++ "/" ++ file.
Proof.
  apply (proj2 (findLatestLogFile_located insertionSort sampleFS "/logs")).
  vm_compute. reflexivity.
Defined.

(** ** From a log line to the alert *)

Section EndToEnd.

Variable fmtFloat64 : float -> string.

Lemma fold_storeStatusMember_since (members : list (string * json)) (hs : HeartbeatStatus)
    (failed : bool) :
  (forall kv, kv ∈ members -> lookupField hsFields (fst kv) <> Some FSinceLastSuccess) ->
  SinceLastSuccess (fst (fold_left storeStatusMember members (hs, failed)))
  = SinceLastSuccess hs.
Proof.
  revert hs failed. induction members as [|kv members IH]; intros hs failed Hother;
    cbn [fold_left]; [reflexivity|].
  assert (Hkv : lookupField hsFields (fst kv) <> Some FSinceLastSuccess)
    by (apply Hother, list_elem_of_here).
  assert (Hrest : forall kv', kv' ∈ members ->
            lookupField hsFields (fst kv') <> Some FSinceLastSuccess)
    by (intros kv' Hin; apply Hother, list_elem_of_further, Hin).
  unfold storeStatusMember at 2.
  destruct (lookupField hsFields (fst kv)) as [[]|]; [contradiction | |].
  - destruct (snd kv); rewrite (IH _ _ Hrest); reflexivity.
  - apply (IH _ _ Hrest).
Qed.

(** X16.  A status object with no member for [since_last_success] decodes with
    [since_last_success = 0], the zero value, so that for the configured address
    the alert then depends on [last_ack_duration] alone. *)
Theorem missing_since_last_success_is_zero (members : list (string * json))
    (hs : HeartbeatStatus) (logEntry : LogArrayEntry) (config : Config) (ptr : N) :
  (forall kv, kv ∈ members -> lookupField hsFields (fst kv) <> Some FSinceLastSuccess) ->
  unmarshalHeartbeatStatus (JObject members) = Some hs ->
  SinceLastSuccess hs = 0%float
  /\ (HeartbeatStatuses (Validator logEntry) !! ValidatorAddress config = Some hs ->
      alerted (processLogEntry fmtFloat64 logEntry config ptr)
      = match LastAckDuration hs with
        | Some d => (0.02 <? d)%float
        | None => true
        end).
Proof.
  intros Hother. unfold unmarshalHeartbeatStatus.
  pose proof (fold_storeStatusMember_since members zeroHeartbeatStatus false Hother) as Hs.
  destruct (fold_left storeStatusMember members _) as [hs1 failed1].
  destruct failed1; [discriminate|]. intros [= <-]. simpl in Hs.
  split; [exact Hs|].
  intros Hfound. rewrite (processLogEntry_found _ _ _ _ _ Hfound), Hs.
  unfold maxSinceLastSuccess, maxLastAckDuration.
  change (40 <? 0)%float with false. cbn [orb].
  destruct (LastAckDuration hs1) as [d|]; [destruct (0.02 <? d)%float|]; reflexivity.
Qed.

(** X17.  A cycle over a log whose last line is [[ts, {"heartbeat_statuses":
    [[address, status]]}]] for the configured address, [status] holding a
    finite [since_last_success] and a [last_ack_duration] that is a finite
    number or [null]: the line is decoded and evaluated, and the alert goes out
    exactly when the condition of line 193 holds for the decoded [float64]
    values. *)
Theorem single_status_line_cycle (config : Config) (ptr : N) (lines : list json)
    (ts : string) (since : float) (ack : option float) (k : nat) :
  PrimFloat.is_finite since = true ->
  (forall d, ack = Some d -> PrimFloat.is_finite d = true) ->
  let st := {| SinceLastSuccess := since; LastAckDuration := ack |} in
  let raw :=
    JArray [JString ts;
            JObject [("heartbeat_statuses",
                      JArray [JArray [JString (ValidatorAddress config);
                                      JObject [("since_last_success", JNumber since);
                                               ("last_ack_duration",
                                                match ack with
                                                | Some d => JNumber d
                                                | None => JNull
                                                end)]]])]] in
  exists run,
    pollCycle fmtFloat64 (k + S (S (length lines))) config ptr
      (Some (List.map Value (lines ++ [raw]))) = Some run
    /\ Printf (LogTimestamp ts) ∈ fst run
    /\ List.filter isAlert (fst run)
       = if (40 <? since)%float
            || match ack with
               | Some d => (0.02 <? d)%float
               | None => true
               end
         then [PostMessage (SlackChannel config) (alertMessage fmtFloat64 config st ptr);
               ManageEvent (PagerDutyAPIKey config) (alertMessage fmtFloat64 config st ptr)]
         else [].
Proof.
  intros _ _ st raw. subst raw. rewrite pollCycle_values.
  set (address := ValidatorAddress config).
  assert (Hdecode :
    UnmarshalJSON zeroValidatorData
      (toInterface
         (JObject [("heartbeat_statuses",
                    JArray [JArray [JString address;
                                    JObject [("since_last_success", JNumber since);
                                             ("last_ack_duration",
                                              match ack with
                                              | Some d => JNumber d
                                              | None => JNull
                                              end)]]])]))
    = Ok {| HomeValidator := ""; ValidatorsMissingHeartbeat := [];
            HeartbeatStatuses := <[address := st]> ∅ |}).
  { destruct ack; reflexivity. }
  unfold evaluateLast, unmarshalLogArray. cbn [List.map].
  change (toInterface (JString ts)) with (JString ts). rewrite Hdecode.
  rewrite (processLogEntry_found fmtFloat64 _ config ptr st).
  - unfold maxSinceLastSuccess, maxLastAckDuration. cbn [SinceLastSuccess LastAckDuration st].
    eexists. split; [reflexivity|].
    destruct (_ || _); cbn;
      (split; [apply list_elem_of_further, list_elem_of_here | reflexivity]).
  - cbn [Validator HeartbeatStatuses]. apply lookup_insert_eq.
Qed.

End EndToEnd.

Lemma missing_since_last_success_is_zero_witness :
  SinceLastSuccess (status 0 (Some 0.01%float)) = 0%float.
Proof.
  refine (proj1 (missing_since_last_success_is_zero fmtSample
                   [("last_ack_duration", JNumber 0.01)] (status 0 (Some 0.01%float))
                   entryQuiet config0 0 _ eq_refl)).
  intros kv Hin. apply list_elem_of_In in Hin. destruct Hin as [<- | []]. discriminate.
Defined.

Lemma single_status_line_cycle_witness :
  exists run,
    pollCycle fmtSample 2 config0 0
      (Some [Value
               (JArray [JString "2024-01-02T00:00:00";
                        JObject [("heartbeat_statuses",
                                  JArray [JArray [JString "0xabc";
                                                  JObject [("since_last_success", JNumber 41);
                                                           ("last_ack_duration",
                                                            JNumber 0.01)]]])]])])
    = Some run
    /\ Printf (LogTimestamp "2024-01-02T00:00:00") ∈ fst run
    /\ List.filter isAlert (fst run)
       = [PostMessage "#alerts" (alertMessage fmtSample config0 (status 41 (Some 0.01%float)) 0);
          ManageEvent "routing-key"
            (alertMessage fmtSample config0 (status 41 (Some 0.01%float)) 0)].
Proof.
  refine (single_status_line_cycle fmtSample config0 0 [] "2024-01-02T00:00:00"
            41%float (Some 0.01%float) 0 eq_refl _).
  intros d [= <-]. reflexivity.
Defined.
